(** * beancount.core.account: account names, their types and sort keys

    A shallow embedding of [src/python/beancount/core/account.py] and the
    properties of its functions.

    Python strings are modelled by [string] (code points below 256), Python
    exceptions by the error monad [Py.result], dictionaries by [gmap], and
    the values a dictionary may hold by the tagged union [pyvalue]. *)

From Stdlib Require Import Ascii String ZArith Lia.
From stdpp Require Import base option list gmap strings.

(** ** The Python primitives the module relies on *)

Module Py.

(** The exceptions that the modelled code can raise. *)
Inductive exn : Set :=
| AssertionError
| NameError
| KeyError
| IndexError.

Inductive result (A : Type) : Type :=
| Ok (a : A)
| Raise (e : exn).
Arguments Ok {A} a.
Arguments Raise {A} e.

#[global] Instance result_ret : MRet result := @Ok.
#[global] Instance result_bind : MBind result :=
  fun A B f m => match m with Ok a => f a | Raise e => Raise e end.

(** [assert cond] *)
Definition py_assert (cond : bool) : result unit :=
  if cond then Ok tt else Raise AssertionError.

(** Truth value of a [str]: only the empty string is false. *)
Definition str_bool (s : string) : bool :=
  match s with EmptyString => false | String _ _ => true end.

(** [s.split(sep)] for a one-character separator: every occurrence of [sep]
    ends a field, so the result has one more field than [s] has separators
    and is never empty. *)
Fixpoint split (sep : ascii) (s : string) : list string :=
  match s with
  | EmptyString => [EmptyString]
  | String c s' =>
      if Ascii.eqb c sep then EmptyString :: split sep s'
      else match split sep s' with
           | field :: fields => String c field :: fields
           | [] => [String c EmptyString]
           end
  end.

(** [sep.join(fields)] *)
Fixpoint join (sep : string) (fields : list string) : string :=
  match fields with
  | [] => EmptyString
  | [x] => x
  | x :: xs => x +:+ sep +:+ join sep xs
  end.

(** Normalisation of a possibly negative index against a length. *)
Definition norm_index (len : nat) (i : Z) : option nat :=
  let j := (if i <? 0 then i + Z.of_nat len else i)%Z in
  if ((0 <=? j) && (j <? Z.of_nat len))%Z then Some (Z.to_nat j) else None.

(** [l[i]] *)
Definition getitem {A} (l : list A) (i : Z) : result A :=
  match norm_index (length l) i with
  | Some j => match l !! j with Some x => Ok x | None => Raise IndexError end
  | None => Raise IndexError
  end.

(** [l.pop(i)]: the element removed and the list that is left. *)
Definition pop {A} (l : list A) (i : Z) : result (A * list A) :=
  match norm_index (length l) i with
  | Some j =>
      match l !! j with
      | Some x => Ok (x, take j l ++ drop (S j) l)
      | None => Raise IndexError
      end
  | None => Raise IndexError
  end.

(** [a < b] on [str]: the code points at the first position where the two
    strings differ decide; a proper prefix is smaller. *)
Fixpoint str_lt (a b : string) : bool :=
  match a, b with
  | EmptyString, EmptyString => false
  | EmptyString, String _ _ => true
  | String _ _, EmptyString => false
  | String x a', String y b' =>
      if Ascii.eqb x y then str_lt a' b'
      else (nat_of_ascii x <? nat_of_ascii y)%nat
  end.

(** [a < b] on pairs [(int, str)]: the first component that differs
    decides. *)
Definition tuple_lt (a b : Z * string) : bool :=
  if negb (fst a =? fst b)%Z then (fst a <? fst b)%Z
  else if negb (String.eqb (snd a) (snd b)) then str_lt (snd a) (snd b)
  else false.

End Py.

Import Py.

(** ** The fragment of [re] used by [is_account_name] *)

Module Re.

Inductive set_item : Set :=
| Range (lo hi : ascii)      (* [lo-hi] *)
| Single (c : ascii).        (* a literal or escaped character of a set *)

Inductive regex : Set :=
| CharSet (items : list set_item)   (* [...] *)
| Lit (c : ascii)                   (* a literal character *)
| Cat (r1 r2 : regex)               (* r1 r2 *)
| Group (r : regex)                 (* ( r ) *)
| Plus (r : regex)                  (* r+, greedy *)
| Dollar.                           (* $ without MULTILINE *)

Definition in_item (c : ascii) (i : set_item) : bool :=
  match i with
  | Range lo hi =>
      (nat_of_ascii lo <=? nat_of_ascii c)%nat
      && (nat_of_ascii c <=? nat_of_ascii hi)%nat
  | Single x => Ascii.eqb c x
  end.

Definition in_set (c : ascii) (items : list set_item) : bool :=
  existsb (in_item c) items.

(** [$] matches at the end of the string and also just before a newline
    that is the last character of the string. *)
Definition at_end (s : string) : bool :=
  match s with
  | EmptyString => true
  | String c EmptyString => Ascii.eqb c "010"
  | _ => false
  end.

(** One or more repetitions of [body], as many as possible first.  Every
    repetition of a body that consumes input shortens the subject, so a
    budget above its length is never exhausted. *)
Fixpoint plus_loop (body : string -> (string -> option string) -> option string)
    (k : string -> option string) (fuel : nat) (s : string) : option string :=
  match fuel with
  | O => None
  | S fuel' =>
      body s (fun s' =>
        match plus_loop body k fuel' s' with
        | Some rest => Some rest
        | None => k s'
        end)
  end.

(** The backtracking matcher: [run r s k] matches [r] at the start of [s]
    and hands what is left of [s] to [k]; when [k] fails the next
    alternative is tried. *)
Fixpoint run (r : regex) (s : string) (k : string -> option string)
    : option string :=
  match r with
  | CharSet items =>
      match s with
      | String c s' => if in_set c items then k s' else None
      | EmptyString => None
      end
  | Lit x =>
      match s with
      | String c s' => if Ascii.eqb c x then k s' else None
      | EmptyString => None
      end
  | Cat r1 r2 => run r1 s (fun s' => run r2 s' k)
  | Group r' => run r' s k
  | Plus r' => plus_loop (run r') k (S (String.length s)) s
  | Dollar => if at_end s then k s else None
  end.

(** [re.match(pattern, string)]: the match object is represented by the
    part of the subject after the match; [None] when there is no match. *)
Definition match_ (pattern : regex) (s : string) : option string :=
  run pattern s Some.

(** [bool(m)] for the result of [re.match]. *)
Definition bool_match (m : option string) : bool :=
  match m with Some _ => true | None => false end.

End Re.

Import Re.

(** ** The data of the module *)

(** [Account = namedtuple('Account', 'name type')] *)
Record Account : Set := mkAccount { name : string; type : string }.

(** The Python values that options and importer configurations hold. *)
Inductive pyvalue : Set :=
| VNone
| VBool (b : bool)
| VInt (z : Z)
| VStr (s : string)
| VAccount (a : Account)
| VOpaque (qualname : string).   (* a module, function or class object *)

(** [bool(v)] *)
Definition truth (v : pyvalue) : bool :=
  match v with
  | VNone => false
  | VBool b => b
  | VInt z => negb (z =? 0)%Z
  | VStr s => str_bool s
  | VAccount _ => true
  | VOpaque _ => true
  end.

(** [s == v] for a [str] [s]: only an equal [str] compares equal. *)
Definition str_eq_value (s : string) (v : pyvalue) : bool :=
  match v with
  | VStr s' => String.eqb s s'
  | _ => false
  end.

(** What [account.py] reads from [beancount.core.account_types]: the
    registered root types and their ranks. *)
Record account_types_module : Type := {
  ACCOUNT_TYPES : list string;
  TYPES_ORDER : gmap string Z
}.

(** Modelled from the spec: [beancount/core/account_types.py] is not part of
    the sources; the conventional taxonomy has the root types Assets,
    Liabilities, Equity, Income and Expenses, ranked in that order. *)
Definition conventional_types : account_types_module := {|
  ACCOUNT_TYPES := ["Assets"; "Liabilities"; "Equity"; "Income"; "Expenses"];
  TYPES_ORDER :=
    list_to_map [("Assets", 0%Z); ("Liabilities", 1%Z); ("Equity", 2%Z);
                 ("Income", 3%Z); ("Expenses", 4%Z)]
|}.

(** The names bound at module level in [account.py]: its imports, the
    [Account] class and its functions. *)
Definition module_globals : list string :=
  ["re"; "namedtuple"; "account_types"; "Account"; "account_from_name";
   "account_name_parent"; "account_name_leaf"; "account_sortkey";
   "account_name_sortkey"; "account_name_type"; "is_account_name";
   "is_account_name_root"; "is_balance_sheet_account";
   "is_income_statement_account"; "accountify_dict"].

(** Reading a name that is neither a parameter nor a local variable. *)
Definition load_global (id : string) : result pyvalue :=
  if bool_decide (id ∈ module_globals) then Ok (VOpaque id)
  else Raise NameError.

(** The pattern of [is_account_name]:
    ['([A-Z][A-Za-z0-9\-]+)(:[A-Z][A-Za-z0-9\-]+)+$'] *)
Definition set_upper : regex := CharSet [Range "A" "Z"].
Definition set_word : regex :=
  CharSet [Range "A" "Z"; Range "a" "z"; Range "0" "9"; Single "-"].
Definition account_name_pattern : regex :=
  Cat (Group (Cat set_upper (Plus set_word)))
      (Cat (Plus (Group (Cat (Lit ":") (Cat set_upper (Plus set_word)))))
           Dollar).

(** ** The functions of [account.py] *)

Section account.

Variable account_types : account_types_module.

Definition account_name_type (account_name : string) : result string :=
  atype ← getitem (split ":" account_name) 0;
  py_assert (bool_decide (atype ∈ account_types.(ACCOUNT_TYPES)));;
  Ok atype.

Definition account_from_name (account_name : string) : result Account :=
  atype ← account_name_type account_name;
  py_assert (bool_decide (atype ∈ account_types.(ACCOUNT_TYPES)));;
  Ok (mkAccount account_name atype).

Definition account_name_parent (account_name : string)
    : result (option string) :=
  if negb (str_bool account_name) then Ok None
  else
    let components := split ":" account_name in
    popped ← pop components (-1);
    Ok (Some (join ":" (snd popped))).

Definition account_name_leaf (account_name : string)
    : result (option string) :=
  name ← load_global "name";
  if truth name then
    leaf ← getitem (split ":" account_name) (-1);
    Ok (Some leaf)
  else Ok None.

Definition account_sortkey (account : Account) : result (Z * string) :=
  match account_types.(TYPES_ORDER) !! account.(type) with
  | Some rank => Ok (rank, account.(name))
  | None => Raise KeyError
  end.

Definition account_name_sortkey (account_name : string)
    : result (Z * string) :=
  type_ ← account_name_type account_name;
  match account_types.(TYPES_ORDER) !! type_ with
  | Some rank => Ok (rank, account_name)
  | None => Raise KeyError
  end.

Definition is_account_name (string : string) : bool :=
  bool_match (match_ account_name_pattern string).

Definition is_account_name_root (account_name : string) : bool :=
  bool_decide (account_name ∈ account_types.(ACCOUNT_TYPES)).

(** [x in (options[k] for k in keys)]: the generator looks the keys up one
    at a time and the search stops at the first value equal to [x]. *)
Fixpoint in_option_values (x : string) (options : gmap string pyvalue)
    (keys : list string) : result bool :=
  match keys with
  | [] => Ok false
  | k :: keys' =>
      match options !! k with
      | None => Raise KeyError
      | Some v =>
          if str_eq_value x v then Ok true
          else in_option_values x options keys'
      end
  end.

Definition is_balance_sheet_account (account : Account)
    (options : gmap string pyvalue) : result bool :=
  in_option_values account.(type) options
    ["name_assets"; "name_liabilities"; "name_equity"].

Definition is_income_statement_account (account : Account)
    (options : gmap string pyvalue) : result bool :=
  in_option_values account.(type) options ["name_income"; "name_expenses"].

(** The value expression of the comprehension in [accountify_dict]. *)
Definition accountify_value (value : pyvalue) : result pyvalue :=
  match value with
  | VStr s =>
      if is_account_name s then
        account ← account_from_name s;
        Ok (VAccount account)
      else Ok value
  | _ => Ok value
  end.

(** The dictionary comprehension: the items are visited one by one and each
    converted value is stored under its key in the dictionary being built;
    an exception raised for one item aborts the whole comprehension. *)
Definition accountify_dict `{Countable K} (string_dict : gmap K pyvalue)
    : result (gmap K pyvalue) :=
  map_fold
    (fun key value acc =>
       built ← acc;
       converted ← accountify_value value;
       Ok (<[key := converted]> built))
    (Ok ∅) string_dict.

End account.

(** ** The vocabulary of the specification *)

(** The characters of a string, in order. *)
Definition chars (s : string) : list ascii := list_ascii_of_string s.

(** A segment contains no colon. *)
Definition colon_free (s : string) : Prop := ":"%char ∉ chars s.

#[global] Instance colon_free_dec (s : string) : Decision (colon_free s).
Proof. unfold colon_free. apply _. Defined.

(** The first colon-segment of a name: its characters before the first
    colon, the whole name when it has none. *)
Fixpoint first_segment (s : string) : string :=
  match s with
  | EmptyString => EmptyString
  | String c s' =>
      if Ascii.eqb c ":" then EmptyString else String c (first_segment s')
  end.

(** The character classes of the grammar of account names. *)
Definition between (lo hi c : ascii) : Prop :=
  nat_of_ascii lo <= nat_of_ascii c <= nat_of_ascii hi.
Definition upper_char (c : ascii) : Prop := between "A" "Z" c.
Definition word_char (c : ascii) : Prop :=
  between "A" "Z" c \/ between "a" "z" c \/ between "0" "9" c \/ c = "-"%char.

(** A segment [[A-Z][A-Za-z0-9-]+]: an uppercase letter followed by at least
    one letter, digit or hyphen. *)
Definition segment (seg : string) : Prop :=
  exists c rest, seg = String c rest /\ upper_char c /\ rest <> EmptyString
                 /\ Forall word_char (chars rest).

(** [SEGMENT(:SEGMENT)+]: two segments or more, joined by colons, and
    nothing else. *)
Definition account_name_form (s : string) : Prop :=
  exists segs, 2 <= length segs /\ Forall segment segs /\ s = join ":" segs.

(** The newline character and the string made of it. *)
Definition newline : ascii := "010"%char.
Definition nl : string := String newline EmptyString.

(** Ordinal lexicographic order: [a] precedes [b] when [a] is a proper
    prefix of [b], or when at the first position where they differ the code
    point of [a] is the smaller one. *)
Definition lex_before (a b : string) : Prop :=
  (exists c rest, b = a +:+ String c rest)
  \/ (exists p x y ra rb, a = p +:+ String x ra /\ b = p +:+ String y rb
                          /\ nat_of_ascii x < nat_of_ascii y).

(** The language of a pattern, independently of the matcher:
    [matches r s1 s2] says that [r] can match exactly [s1] when [s2] is what
    follows in the subject. *)
Inductive iter (L : string -> string -> Prop) : string -> string -> Prop :=
| iter_once x rest : L x rest -> iter L x rest
| iter_more x y rest : L x (y +:+ rest) -> iter L y rest -> iter L (x +:+ y) rest.

Fixpoint matches (r : regex) (s1 s2 : string) : Prop :=
  match r with
  | CharSet items => exists c, s1 = String c EmptyString /\ in_set c items = true
  | Lit x => s1 = String x EmptyString
  | Cat r1 r2 =>
      exists x y, s1 = x +:+ y /\ matches r1 x (y +:+ s2) /\ matches r2 y s2
  | Group r' => matches r' s1 s2
  | Plus r' => iter (matches r') s1 s2
  | Dollar => s1 = EmptyString /\ (s2 = EmptyString \/ s2 = nl)
  end.

(** A pattern every match of which consumes at least one character, and a
    pattern whose repetitions all have such a body. *)
Fixpoint consuming (r : regex) : bool :=
  match r with
  | CharSet _ | Lit _ => true
  | Cat r1 r2 => consuming r1 || consuming r2
  | Group r' | Plus r' => consuming r'
  | Dollar => false
  end.

Fixpoint well_formed (r : regex) : bool :=
  match r with
  | CharSet _ | Lit _ | Dollar => true
  | Cat r1 r2 => well_formed r1 && well_formed r2
  | Group r' => well_formed r'
  | Plus r' => consuming r' && well_formed r'
  end.

(** What [accountify_dict] is to store for a value: the account of a string
    value that is an account name, the value itself otherwise. *)
Definition accountified (v : pyvalue) : pyvalue :=
  match v with
  | VStr s =>
      if is_account_name s then VAccount (mkAccount s (first_segment s)) else v
  | _ => v
  end.

(** A value on which the comprehension of [accountify_dict] raises: a string
    accepted by [is_account_name] whose first colon-segment is not a
    registered root type. *)
Definition unregistered_name (account_types : account_types_module)
    (v : pyvalue) : Prop :=
  exists s, v = VStr s /\ is_account_name s = true
            /\ first_segment s ∉ account_types.(ACCOUNT_TYPES).

(** The five role keys of the naming configuration. *)
Definition role_keys : list string :=
  ["name_assets"; "name_liabilities"; "name_equity"; "name_income";
   "name_expenses"].

(** ** Strings, [split] and [join] *)

Lemma str_app_nil_l (s : string) : "" +:+ s = s.
Proof. reflexivity. Qed.

Lemma str_app_cons (c : ascii) (a b : string) :
  String c a +:+ b = String c (a +:+ b).
Proof. reflexivity. Qed.

Lemma str_app_nil_r (s : string) : s +:+ "" = s.
Proof.
  induction s as [|c s IH]; [reflexivity|]. now rewrite str_app_cons, IH.
Qed.

Lemma str_app_assoc (a b c : string) : (a +:+ b) +:+ c = a +:+ b +:+ c.
Proof.
  induction a as [|x a IH]; [reflexivity|]. now rewrite !str_app_cons, IH.
Qed.

Lemma str_length_app (a b : string) :
  String.length (a +:+ b) = String.length a + String.length b.
Proof.
  induction a as [|x a IH]; [reflexivity|].
  rewrite str_app_cons. simpl. now rewrite IH.
Qed.

Lemma chars_app (a b : string) : chars (a +:+ b) = chars a ++ chars b.
Proof.
  induction a as [|x a IH]; [reflexivity|].
  rewrite str_app_cons. unfold chars in *; simpl. now rewrite IH.
Qed.

Lemma split_nonempty sep s : split sep s <> [].
Proof.
  destruct s as [|c s]; simpl; [discriminate|].
  destruct (Ascii.eqb c sep); [discriminate|].
  destruct (split sep s); discriminate.
Qed.

(** The first field of [split] is the first colon-segment. *)
Lemma split_head (s : string) :
  exists fields, split ":" s = first_segment s :: fields.
Proof.
  induction s as [|c s [fields IH]]; simpl.
  - now exists [].
  - destruct (Ascii.eqb c ":"); [now eexists|].
    rewrite IH. now eexists.
Qed.

(** The fields of [split] are colon-free and joining them gives the string
    back: they are the colon-segments of the string. *)
Lemma split_colon_free (s : string) : Forall colon_free (split ":" s).
Proof.
  induction s as [|c s IH]; simpl.
  - constructor; [|constructor]. unfold colon_free, chars; simpl. apply not_elem_of_nil.
  - destruct (Ascii.eqb_spec c ":") as [->|Hc].
    + constructor; [|exact IH]. unfold colon_free, chars; simpl. apply not_elem_of_nil.
    + destruct (split ":" s) as [|f fs] eqn:E; [now apply split_nonempty in E|].
      inversion IH as [|? ? Hf Hfs]; subst.
      constructor; [|exact Hfs].
      unfold colon_free, chars in *; simpl.
      rewrite not_elem_of_cons. split; [congruence | exact Hf].
Qed.

Lemma join_split (s : string) : join ":" (split ":" s) = s.
Proof.
  induction s as [|c s IH]; simpl; [reflexivity|].
  destruct (Ascii.eqb_spec c ":") as [->|Hc].
  - destruct (split ":" s) as [|f fs] eqn:E; [now apply split_nonempty in E|].
    simpl in *. now rewrite IH.
  - destruct (split ":" s) as [|f fs] eqn:E; [now apply split_nonempty in E|].
    destruct fs; simpl in *; rewrite <- IH; [reflexivity|].
    now rewrite str_app_cons.
Qed.

(** ** The matcher against the language of a pattern *)

Lemma consuming_nonempty (r : regex) :
  consuming r = true ->
  forall s1 s2, matches r s1 s2 -> 0 < String.length s1.
Proof.
  induction r as [items|x|r1 IH1 r2 IH2|r IH|r IH|]; simpl; intros Hc s1 s2 Hm.
  - destruct Hm as (c & -> & _). simpl. lia.
  - subst s1. simpl. lia.
  - destruct Hm as (x & y & -> & Hx & Hy). rewrite str_length_app.
    apply orb_true_iff in Hc as [Hc|Hc].
    + specialize (IH1 Hc _ _ Hx). lia.
    + specialize (IH2 Hc _ _ Hy). lia.
  - eauto.
  - induction Hm as [x rest Hx|x y rest Hx _ _].
    + eauto.
    + rewrite str_length_app. specialize (IH Hc _ _ Hx). lia.
  - discriminate.
Qed.

Lemma plus_loop_sound (body : string -> (string -> option string) -> option string)
    (L : string -> string -> Prop) :
  (forall s k out, body s k = Some out ->
     exists s1 s2, s = s1 +:+ s2 /\ L s1 s2 /\ k s2 = Some out) ->
  forall k fuel s out, plus_loop body k fuel s = Some out ->
    exists s1 s2, s = s1 +:+ s2 /\ iter L s1 s2 /\ k s2 = Some out.
Proof.
  intros Hbody k fuel. induction fuel as [|fuel IH]; simpl; intros s out H.
  - discriminate.
  - apply Hbody in H as (x & s' & -> & Hx & Hk).
    destruct (plus_loop body k fuel s') as [rest|] eqn:E.
    + injection Hk as ->. apply IH in E as (y & s2 & -> & Hy & Hk).
      exists (x +:+ y), s2. rewrite str_app_assoc.
      split; [reflexivity|]. split; [|exact Hk]. now apply iter_more.
    + exists x, s'. split; [reflexivity|]. split; [|exact Hk]. now apply iter_once.
Qed.

Lemma run_sound (r : regex) :
  forall s k out, run r s k = Some out ->
    exists s1 s2, s = s1 +:+ s2 /\ matches r s1 s2 /\ k s2 = Some out.
Proof.
  induction r as [items|x|r1 IH1 r2 IH2|r IH|r IH|]; cbn [run matches];
    intros s k out H.
  - destruct s as [|c s]; [discriminate|].
    destruct (in_set c items) eqn:E; [|discriminate].
    exists (String c ""), s. split; [reflexivity|]. split; [|exact H]. now exists c.
  - destruct s as [|c s]; [discriminate|].
    destruct (Ascii.eqb_spec c x) as [->|]; [|discriminate].
    exists (String x ""), s. now split.
  - apply IH1 in H as (a & s' & -> & Ha & H).
    apply IH2 in H as (b & s2 & -> & Hb & H).
    exists (a +:+ b), s2. rewrite str_app_assoc. split; [reflexivity|].
    split; [|exact H]. now exists a, b.
  - now apply IH.
  - now apply (plus_loop_sound (run r) (matches r) IH) in H.
  - destruct (at_end s) eqn:E; [|discriminate].
    exists "", s. split; [reflexivity|]. split; [|exact H]. split; [reflexivity|].
    destruct s as [|c [|d s]]; simpl in E; try discriminate; [now left|right].
    apply Ascii.eqb_eq in E as ->. reflexivity.
Qed.

Lemma plus_loop_complete (body : string -> (string -> option string) -> option string)
    (L : string -> string -> Prop) :
  (forall s1 s2 k, L s1 s2 -> is_Some (k s2) -> is_Some (body (s1 +:+ s2) k)) ->
  (forall s1 s2, L s1 s2 -> 0 < String.length s1) ->
  forall k s1 s2, iter L s1 s2 -> is_Some (k s2) ->
  forall fuel, String.length (s1 +:+ s2) < fuel ->
    is_Some (plus_loop body k fuel (s1 +:+ s2)).
Proof.
  intros Hbody Hpos k s1 s2 Hit Hk.
  induction Hit as [x rest Hx|x y rest Hx Hy IH]; intros [|fuel] Hfuel; try lia; simpl.
  - apply Hbody; [exact Hx|]. now destruct (plus_loop body k fuel rest).
  - rewrite str_app_assoc. apply Hbody; [exact Hx|].
    assert (is_Some (plus_loop body k fuel (y +:+ rest))) as [out ->]; [|now eexists].
    apply IH; [exact Hk|]. specialize (Hpos _ _ Hx).
    rewrite str_app_assoc, str_length_app in Hfuel. lia.
Qed.

Lemma run_complete (r : regex) :
  well_formed r = true ->
  forall s1 s2 k, matches r s1 s2 -> is_Some (k s2) -> is_Some (run r (s1 +:+ s2) k).
Proof.
  induction r as [items|x|r1 IH1 r2 IH2|r IH|r IH|]; cbn [run matches well_formed];
    intros Hwf s1 s2 k Hm Hk.
  - destruct Hm as (c & -> & Hc). rewrite str_app_cons, str_app_nil_l, Hc. exact Hk.
  - subst s1. rewrite str_app_cons, str_app_nil_l, Ascii.eqb_refl. exact Hk.
  - apply andb_true_iff in Hwf as [Hwf1 Hwf2].
    destruct Hm as (a & b & -> & Ha & Hb). rewrite str_app_assoc.
    apply IH1; [exact Hwf1 | exact Ha|]. now apply IH2.
  - now apply IH.
  - apply andb_true_iff in Hwf as [Hc Hwf].
    apply (plus_loop_complete (run r) (matches r)); try assumption.
    + intros; now apply IH.
    + now apply consuming_nonempty.
    + lia.
  - destruct Hm as [-> Hs2]. rewrite str_app_nil_l.
    assert (at_end s2 = true) as ->; [|exact Hk].
    destruct Hs2 as [->| ->]; reflexivity.
Qed.

(** [re.match] finds a match exactly when some prefix of the subject is in
    the language of the pattern. *)
Lemma match_iff (r : regex) (s : string) :
  well_formed r = true ->
  bool_match (match_ r s) = true <->
  exists s1 s2, s = s1 +:+ s2 /\ matches r s1 s2.
Proof.
  intros Hwf. unfold match_. split.
  - destruct (run r s Some) as [out|] eqn:E; [|discriminate]. intros _.
    apply run_sound in E as (s1 & s2 & -> & Hm & _). now exists s1, s2.
  - intros (s1 & s2 & -> & Hm).
    destruct (run_complete r Hwf s1 s2 Some Hm) as [out ->]; [now eexists|reflexivity].
Qed.

(** ** The language of the account-name pattern *)

Lemma in_set_upper (c : ascii) :
  in_set c [Range "A" "Z"] = true <-> upper_char c.
Proof.
  unfold in_set, upper_char, between. cbn [existsb in_item].
  rewrite orb_false_r, andb_true_iff, !Nat.leb_le. reflexivity.
Qed.

Lemma in_set_word (c : ascii) :
  in_set c [Range "A" "Z"; Range "a" "z"; Range "0" "9"; Single "-"] = true
  <-> word_char c.
Proof.
  unfold in_set, word_char, between. cbn [existsb in_item].
  rewrite !orb_true_iff, !andb_true_iff, !Nat.leb_le, Ascii.eqb_eq.
  intuition discriminate.
Qed.

Lemma iter_charset (items : list set_item) (s rest : string) :
  iter (matches (CharSet items)) s rest <->
  s <> "" /\ Forall (fun c => in_set c items = true) (chars s).
Proof.
  split.
  - induction 1 as [x rest (c & -> & Hc)|x y rest (c & -> & Hc) _ [_ IH]].
    + split; [discriminate|]. now repeat constructor.
    + split; [discriminate|]. rewrite str_app_cons, str_app_nil_l. now constructor.
  - intros [Hne Hall]. induction s as [|c s IH]; [congruence|].
    unfold chars in Hall; simpl in Hall. inversion Hall as [|? ? Hc Hs]; subst.
    destruct s as [|d s].
    + apply iter_once. now exists c.
    + change (String c (String d s)) with (String c "" +:+ String d s).
      apply iter_more; [now exists c|]. apply IH; [discriminate | exact Hs].
Qed.

Lemma matches_segment (x rest : string) :
  matches (Cat set_upper (Plus set_word)) x rest <-> segment x.
Proof.
  unfold set_upper, set_word, segment. cbn [matches]. split.
  - intros (a & b & -> & (c & -> & Hc) & Hb).
    apply iter_charset in Hb as [Hne Hall].
    exists c, b. rewrite str_app_cons, str_app_nil_l. split; [reflexivity|].
    split; [now apply in_set_upper|]. split; [exact Hne|].
    eapply Forall_impl; [exact Hall|]. intros d. apply in_set_word.
  - intros (c & b & -> & Hc & Hne & Hall).
    exists (String c ""), b. split; [reflexivity|].
    split; [exists c; split; [reflexivity | now apply in_set_upper]|].
    apply iter_charset. split; [exact Hne|].
    eapply Forall_impl; [exact Hall|]. intros d. apply in_set_word.
Qed.

Lemma join_cons (sep x y : string) (l : list string) :
  join sep (x :: y :: l) = x +:+ sep +:+ join sep (y :: l).
Proof. reflexivity. Qed.

Lemma iter_colon_segments (y rest : string) :
  iter (matches (Group (Cat (Lit ":") (Cat set_upper (Plus set_word))))) y rest
  <-> exists segs, segs <> [] /\ Forall segment segs /\ y = ":" +:+ join ":" segs.
Proof.
  split.
  - induction 1 as [x rest Hx|x y rest Hx _ (segs & Hne & Hall & ->)];
      cbn [matches] in Hx; destruct Hx as (a & b & -> & -> & Hb);
      apply (matches_segment b) in Hb.
    + exists [b]. split; [discriminate|]. split; [now repeat constructor|reflexivity].
    + exists (b :: segs). split; [discriminate|]. split; [now constructor|].
      destruct segs as [|seg segs]; [congruence|].
      now rewrite join_cons, !str_app_assoc.
  - intros (segs & Hne & Hall & ->). revert rest.
    induction Hall as [|b segs Hb Hall IH]; intros rest; [congruence|].
    destruct segs as [|seg segs].
    + apply iter_once. cbn [matches join]. exists ":", b.
      split; [reflexivity|]. split; [reflexivity|]. now apply matches_segment.
    + rewrite join_cons, <- (str_app_assoc ":" b).
      apply (iter_more _ (":" +:+ b) (":" +:+ join ":" (seg :: segs)) rest);
        [|apply IH; discriminate].
      cbn [matches]. exists ":", b.
      split; [reflexivity|]. split; [reflexivity|]. now apply matches_segment.
Qed.

Lemma matches_account_name_pattern (s1 s2 : string) :
  matches account_name_pattern s1 s2 <->
  account_name_form s1 /\ (s2 = "" \/ s2 = nl).
Proof.
  unfold account_name_pattern, account_name_form.
  cbn [matches]. fold (matches (Cat set_upper (Plus set_word))).
  split.
  - intros (x & y & -> & Hx & y1 & y2 & -> & Hy1 & -> & Hs2).
    apply matches_segment in Hx.
    apply iter_colon_segments in Hy1 as (segs & Hne & Hall & ->).
    split; [|exact Hs2]. exists (x :: segs).
    split; [destruct segs; [congruence | simpl; lia]|].
    split; [now constructor|].
    destruct segs as [|seg segs]; [congruence|].
    now rewrite (join_cons ":" x), str_app_nil_r.
  - intros [(segs & Hlen & Hall & ->) Hs2].
    destruct segs as [|x [|seg segs]]; simpl in Hlen; try lia.
    inversion Hall as [|? ? Hx Hrest]; subst.
    exists x, (":" +:+ join ":" (seg :: segs)). split; [reflexivity|].
    split; [now apply matches_segment|].
    exists (":" +:+ join ":" (seg :: segs)), "".
    split; [now rewrite str_app_nil_r|]. split; [|now split].
    apply iter_colon_segments. exists (seg :: segs). now split.
Qed.

(** The strings accepted by [is_account_name]: the names of the grammar,
    and the same names followed by one newline. *)
Lemma is_account_name_accepts (s : string) :
  is_account_name s = true <->
  account_name_form s \/ exists n, account_name_form n /\ s = n +:+ nl.
Proof.
  unfold is_account_name. rewrite match_iff by reflexivity. split.
  - intros (s1 & s2 & -> & Hm).
    apply matches_account_name_pattern in Hm as [Hform [-> | ->]].
    + left. now rewrite str_app_nil_r.
    + right. now exists s1.
  - intros [Hform | (n & Hform & ->)].
    + exists s, "". split; [now rewrite str_app_nil_r|].
      apply matches_account_name_pattern. split; [exact Hform | now left].
    + exists n, nl. split; [reflexivity|].
      apply matches_account_name_pattern. split; [exact Hform | now right].
Qed.

(** ** Indexing and popping lists *)

Lemma getitem_first {A} (x : A) (l : list A) : getitem (x :: l) 0 = Ok x.
Proof.
  unfold getitem, norm_index. cbn [length].
  replace (0 <? 0)%Z with false by reflexivity.
  replace ((0 <=? 0) && (0 <? Z.of_nat (S (length l))))%Z with true; [reflexivity|].
  symmetry. apply andb_true_iff. split; [reflexivity|]. apply Z.ltb_lt. lia.
Qed.

Lemma norm_index_last (n : nat) : norm_index (S n) (-1) = Some n.
Proof.
  unfold norm_index. replace (-1 <? 0)%Z with true by reflexivity.
  replace (-1 + Z.of_nat (S n))%Z with (Z.of_nat n) by lia.
  replace ((0 <=? Z.of_nat n) && (Z.of_nat n <? Z.of_nat (S n)))%Z with true.
  - now rewrite Nat2Z.id.
  - symmetry. apply andb_true_iff. split; [apply Z.leb_le | apply Z.ltb_lt]; lia.
Qed.

Lemma pop_last {A} (l : list A) (x : A) : pop (l ++ [x]) (-1) = Ok (x, l).
Proof.
  unfold pop. rewrite length_app. cbn [length].
  replace (length l + 1) with (S (length l)) by lia.
  rewrite norm_index_last, list_lookup_middle by reflexivity.
  rewrite take_app_length, drop_ge; [now rewrite app_nil_r|].
  rewrite length_app. simpl. lia.
Qed.

Lemma snoc_cases {A} (l : list A) : l <> [] -> exists l' x, l = l' ++ [x].
Proof.
  induction l as [|x l' _] using rev_ind; [congruence|].
  intros _. now exists l', x.
Qed.

(** A colon-free, non-empty list of fields is what [split] makes of its
    [join]. *)
Lemma split_colon_free_string (s : string) : colon_free s -> split ":" s = [s].
Proof.
  unfold colon_free, chars. induction s as [|c s IH]; [reflexivity|].
  simpl. rewrite not_elem_of_cons. intros [Hc Hs].
  destruct (Ascii.eqb_spec c ":") as [->|_]; [congruence|].
  now rewrite (IH Hs).
Qed.

Lemma split_app_colon (a b : string) :
  colon_free a -> split ":" (a +:+ ":" +:+ b) = a :: split ":" b.
Proof.
  unfold colon_free, chars. induction a as [|c a IH]; [reflexivity|].
  simpl. rewrite not_elem_of_cons. intros [Hc Ha].
  destruct (Ascii.eqb_spec c ":") as [->|_]; [congruence|].
  now rewrite (IH Ha).
Qed.

Lemma split_join (fields : list string) :
  fields <> [] -> Forall colon_free fields -> split ":" (join ":" fields) = fields.
Proof.
  intros Hne Hall. induction Hall as [|x l Hx Hl IH]; [congruence|].
  destruct l as [|y l].
  - now apply split_colon_free_string.
  - rewrite join_cons, split_app_colon by exact Hx. now rewrite IH.
Qed.

(** ** Construction and typing of accounts *)

Section taxonomy.

Variable account_types : account_types_module.

Abbreviation registered t := (t ∈ account_types.(ACCOUNT_TYPES)).

Lemma account_name_type_eq (account_name : string) :
  account_name_type account_types account_name =
  if bool_decide (registered (first_segment account_name))
  then Ok (first_segment account_name) else Raise AssertionError.
Proof.
  unfold account_name_type.
  destruct (split_head account_name) as [fields ->].
  rewrite getitem_first. cbn [mbind result_bind].
  now destruct (bool_decide _).
Qed.

Lemma account_from_name_eq (account_name : string) :
  account_from_name account_types account_name =
  if bool_decide (registered (first_segment account_name))
  then Ok (mkAccount account_name (first_segment account_name))
  else Raise AssertionError.
Proof.
  unfold account_from_name. rewrite account_name_type_eq.
  destruct (bool_decide _) eqn:E; cbn [mbind result_bind]; [|reflexivity].
  now rewrite E.
Qed.

(** C6: [account_from_name] and [account_name_type] raise the assertion
    error for an invalid account type exactly when the first colon-segment
    of the name is not a registered root type; when it is registered,
    [account_name_type] returns that segment and [account_from_name]
    returns the account.  With the conventional root types,
    [account_from_name "Foo:Bar"] raises. *)
Theorem invalid_account_type_iff (account_name : string) :
  (account_name_type account_types account_name = Raise AssertionError
   <-> ~ registered (first_segment account_name))
  /\ (account_from_name account_types account_name = Raise AssertionError
      <-> ~ registered (first_segment account_name))
  /\ (account_name_type account_types account_name
        = Ok (first_segment account_name)
      <-> registered (first_segment account_name))
  /\ (account_from_name account_types account_name
        = Ok (mkAccount account_name (first_segment account_name))
      <-> registered (first_segment account_name))
  /\ account_from_name conventional_types "Foo:Bar" = Raise AssertionError.
Proof.
  rewrite account_name_type_eq, account_from_name_eq.
  destruct (bool_decide_reflect (registered (first_segment account_name)))
    as [Hin|Hout].
  - repeat split; intros; try discriminate; try contradiction; auto.
  - repeat split; intros; try discriminate; try contradiction; auto.
Qed.

(** C1, as amended: for every name accepted by [is_account_name],
    [account_from_name] succeeds when the first colon-segment of the name is
    a registered root type, and then returns an account with that name and
    with the type that [account_name_type] returns, the first colon-segment
    of the name; when the first colon-segment is not registered it raises
    the assertion error for an invalid account type.  Every account that
    [account_from_name] returns has the first colon-segment of its name as
    its type. *)
Theorem account_from_name_valid (n : string) :
  is_account_name n = true ->
  (registered (first_segment n) ->
   exists a, account_from_name account_types n = Ok a
             /\ a.(name) = n
             /\ account_name_type account_types n = Ok a.(type)
             /\ a.(type) = first_segment n)
  /\ (~ registered (first_segment n) ->
      account_from_name account_types n = Raise AssertionError
      /\ account_name_type account_types n = Raise AssertionError)
  /\ (forall m a, account_from_name account_types m = Ok a ->
        a.(type) = first_segment a.(name)).
Proof.
  intros _. split; [|split].
  - intros Hreg. exists (mkAccount n (first_segment n)).
    rewrite account_from_name_eq, account_name_type_eq.
    now rewrite (bool_decide_eq_true_2 _ Hreg).
  - intros Hout. rewrite account_from_name_eq, account_name_type_eq.
    now rewrite (bool_decide_eq_false_2 _ Hout).
  - intros m a. rewrite account_from_name_eq.
    destruct (bool_decide _); [|discriminate]. now intros [= <-].
Qed.

(** C9: for a name whose first colon-segment is a registered root type, the
    sort key computed from the name is the sort key of the account
    constructed from it. *)
Theorem account_name_sortkey_agrees (account_name : string) :
  registered (first_segment account_name) ->
  exists a, account_from_name account_types account_name = Ok a
            /\ account_name_sortkey account_types account_name
               = account_sortkey account_types a.
Proof.
  intros Hreg. exists (mkAccount account_name (first_segment account_name)).
  unfold account_name_sortkey, account_sortkey.
  rewrite account_from_name_eq, account_name_type_eq.
  now rewrite (bool_decide_eq_true_2 _ Hreg).
Qed.

End taxonomy.

(** C1, as stated, fails: ["Foo:Bar"] is accepted by [is_account_name], and
    with the conventional root types [account_from_name] raises on it. *)
Lemma unregistered_name_is_accepted :
  is_account_name "Foo:Bar" = true
  /\ account_from_name conventional_types "Foo:Bar" = Raise AssertionError
  /\ ~ (forall n, is_account_name n = true ->
          exists a, account_from_name conventional_types n = Ok a).
Proof.
  split; [reflexivity|]. split; [reflexivity|].
  intros H. destruct (H "Foo:Bar" eq_refl) as [a Ha]. discriminate Ha.
Qed.

Lemma account_from_name_valid_witness :
  is_account_name "Assets:US:Checking" = true
  /\ first_segment "Assets:US:Checking" ∈ conventional_types.(ACCOUNT_TYPES)
  /\ (exists a, account_from_name conventional_types "Assets:US:Checking" = Ok a
                /\ a.(name) = "Assets:US:Checking" /\ a.(type) = "Assets")
  /\ is_account_name "Foo:Bar" = true
  /\ (first_segment "Foo:Bar" ∉ conventional_types.(ACCOUNT_TYPES))
  /\ account_from_name conventional_types "Foo:Bar" = Raise AssertionError.
Proof.
  assert (Hreg : first_segment "Assets:US:Checking"
                 ∈ conventional_types.(ACCOUNT_TYPES))
    by (vm_compute; constructor).
  assert (Hout : first_segment "Foo:Bar" ∉ conventional_types.(ACCOUNT_TYPES))
    by (apply (bool_decide_unpack _); vm_compute; exact I).
  split; [reflexivity|]. split; [exact Hreg|]. split.
  - destruct (account_from_name_valid conventional_types "Assets:US:Checking"
                eq_refl) as (Hok & _ & _).
    destruct (Hok Hreg) as (a & Ha & Hname & _ & Htype).
    exists a. split; [exact Ha|]. split; [exact Hname | exact Htype].
  - split; [reflexivity|]. split; [exact Hout|].
    destruct (account_from_name_valid conventional_types "Foo:Bar" eq_refl)
      as (_ & Hfail & _).
    exact (proj1 (Hfail Hout)).
Defined.

Lemma account_name_sortkey_agrees_witness :
  first_segment "Income:Salary" ∈ conventional_types.(ACCOUNT_TYPES)
  /\ exists a, account_from_name conventional_types "Income:Salary" = Ok a
               /\ account_name_sortkey conventional_types "Income:Salary"
                  = account_sortkey conventional_types a.
Proof.
  assert (Hreg : first_segment "Income:Salary"
                 ∈ conventional_types.(ACCOUNT_TYPES)).
  { vm_compute. repeat constructor. }
  split; [exact Hreg|].
  exact (account_name_sortkey_agrees conventional_types "Income:Salary" Hreg).
Defined.

(** ** Parent and leaf names *)

Lemma str_bool_true (s : string) : s <> "" -> str_bool s = true.
Proof. destruct s; [congruence | reflexivity]. Qed.

Lemma account_name_parent_split (account_name : string) (fields : list string)
    (last : string) :
  account_name <> "" ->
  split ":" account_name = fields ++ [last] ->
  account_name_parent account_name = Ok (Some (join ":" fields)).
Proof.
  intros Hne Hsplit. unfold account_name_parent.
  rewrite (str_bool_true _ Hne), Hsplit, pop_last. reflexivity.
Qed.

(** C2, as amended: for the empty string [account_name_parent] returns
    [None]; every other name is the colon-join of its colon-segments, and
    its parent is the colon-join of all of them but the last, which is the
    empty string for a name without colon. *)
Theorem account_name_parent_segments (account_name : string) :
  (account_name = "" -> account_name_parent account_name = Ok None)
  /\ (account_name <> "" ->
      (exists segs last,
          Forall colon_free (segs ++ [last])
          /\ account_name = join ":" (segs ++ [last]))
      /\ (forall segs last,
            Forall colon_free (segs ++ [last]) ->
            account_name = join ":" (segs ++ [last]) ->
            account_name_parent account_name = Ok (Some (join ":" segs)))
      /\ (colon_free account_name ->
          account_name_parent account_name = Ok (Some ""))).
Proof.
  split; [now intros ->|]. intros Hne.
  assert (Hall : forall segs last,
            Forall colon_free (segs ++ [last]) ->
            account_name = join ":" (segs ++ [last]) ->
            account_name_parent account_name = Ok (Some (join ":" segs))).
  { intros segs last Hfree Hjoin.
    apply (account_name_parent_split _ _ last Hne).
    rewrite Hjoin. apply split_join; [|exact Hfree].
    destruct segs; discriminate. }
  split; [|split].
  - destruct (snoc_cases (split ":" account_name) (split_nonempty _ _))
      as (segs & last & Hsplit).
    exists segs, last. rewrite <- Hsplit.
    split; [apply split_colon_free | now rewrite join_split].
  - exact Hall.
  - intros Hfree. apply (Hall [] account_name); [|reflexivity].
    now repeat constructor.
Qed.

(** C2, as stated, fails on the empty string: the result is [None], not the
    empty string. *)
Lemma account_name_parent_empty :
  account_name_parent "" = Ok None
  /\ account_name_parent "" <> Ok (Some "").
Proof. split; [reflexivity | discriminate]. Qed.

Lemma account_name_parent_segments_witness :
  "Assets:US:Checking" <> ""
  /\ account_name_parent "Assets:US:Checking" = Ok (Some "Assets:US")
  /\ account_name_parent "Assets" = Ok (Some "").
Proof.
  split; [discriminate|]. split.
  - destruct (account_name_parent_segments "Assets:US:Checking")
      as [_ H]. destruct H as (_ & H & _); [discriminate|].
    apply (H ["Assets"; "US"] "Checking"); [|reflexivity].
    apply (bool_decide_unpack _). vm_compute. exact I.
  - destruct (account_name_parent_segments "Assets") as [_ H].
    destruct H as (_ & _ & H); [discriminate|].
    apply H. apply (bool_decide_unpack _). vm_compute. exact I.
Defined.

(** C3: the condition of [account_name_leaf] reads the name [name], which
    is bound neither in the function nor in the module, so every call
    raises [NameError]: for ["Assets:US:Checking"] the leaf ["Checking"] is
    not returned. *)
Theorem account_name_leaf_name_error :
  (forall account_name, account_name_leaf account_name = Raise NameError)
  /\ account_name_leaf "Assets:US:Checking" <> Ok (Some "Checking")
  /\ account_name_leaf "" <> Ok None.
Proof.
  assert (H : forall account_name, account_name_leaf account_name = Raise NameError)
    by reflexivity.
  split; [exact H|]. rewrite !H. split; discriminate.
Qed.

(** ** The grammar of account names *)

Lemma segment_chars (seg : string) :
  segment seg -> Forall (fun c => word_char c \/ c = ":"%char) (chars seg).
Proof.
  intros (c & rest & -> & Hc & _ & Hrest). unfold chars in *; simpl.
  constructor; [left; now left|].
  eapply Forall_impl; [exact Hrest|]. now left.
Qed.

Lemma account_name_form_chars (s : string) :
  account_name_form s -> Forall (fun c => word_char c \/ c = ":"%char) (chars s).
Proof.
  intros (segs & _ & Hall & ->).
  induction Hall as [|seg segs Hseg Hall IH]; [constructor|].
  destruct segs as [|seg' segs]; [now apply segment_chars|].
  rewrite join_cons, !chars_app. apply Forall_app.
  split; [now apply segment_chars|]. apply Forall_app. split; [|exact IH].
  change (chars ":") with [":"%char]. constructor; [now right | constructor].
Qed.

Lemma newline_not_word : ~ (word_char newline \/ newline = ":"%char).
Proof.
  unfold word_char, between, newline.
  intros [[H|[H|[H|H]]]|H]; try discriminate H; vm_compute in H; lia.
Qed.

(** C5: [is_account_name] accepts the names of the grammar and, because
    [$] also matches before a final newline, the same names followed by a
    newline: ["Assets:Cash\n"] is accepted although it is not of the form
    [SEGMENT(:SEGMENT)+]. *)
Theorem is_account_name_trailing_newline :
  (forall s, is_account_name s = true <->
             account_name_form s
             \/ exists n, account_name_form n /\ s = n +:+ nl)
  /\ is_account_name ("Assets:Cash" +:+ nl) = true
  /\ ~ account_name_form ("Assets:Cash" +:+ nl).
Proof.
  split; [exact is_account_name_accepts|].
  split; [reflexivity|]. intros Hform.
  apply account_name_form_chars in Hform.
  rewrite Forall_forall in Hform.
  apply newline_not_word, Hform.
  rewrite chars_app. apply elem_of_app. right. constructor.
Qed.

(** ** Sort keys *)

Lemma str_lt_prefix (a : string) (c : ascii) (rest : string) :
  str_lt a (a +:+ String c rest) = true.
Proof.
  induction a as [|x a IH]; [reflexivity|].
  rewrite str_app_cons. cbn [str_lt]. now rewrite Ascii.eqb_refl.
Qed.

Lemma str_lt_differ (p : string) (x y : ascii) (ra rb : string) :
  nat_of_ascii x < nat_of_ascii y ->
  str_lt (p +:+ String x ra) (p +:+ String y rb) = true.
Proof.
  intros Hlt. induction p as [|c p IH].
  - rewrite !str_app_nil_l. cbn [str_lt].
    destruct (Ascii.eqb_spec x y) as [->|_]; [lia|]. now apply Nat.ltb_lt.
  - rewrite !str_app_cons. cbn [str_lt]. now rewrite Ascii.eqb_refl.
Qed.

Lemma str_lt_irrefl (a : string) : str_lt a a = false.
Proof.
  induction a as [|x a IH]; [reflexivity|].
  cbn [str_lt]. now rewrite Ascii.eqb_refl.
Qed.

(** The comparison of Python strings is the ordinal lexicographic order. *)
Lemma str_lt_lex_before (a b : string) : str_lt a b = true <-> lex_before a b.
Proof.
  split.
  - revert b. induction a as [|x a IH]; intros [|y b]; cbn [str_lt];
      try discriminate.
    + intros _. left. now exists y, b.
    + destruct (Ascii.eqb_spec x y) as [->|Hne].
      * intros H. apply IH in H
          as [(c & rest & ->)|(p & x' & y' & ra & rb & -> & -> & Hlt)].
        -- left. now exists c, rest.
        -- right. now exists (String y p), x', y', ra, rb.
      * intros H%Nat.ltb_lt. right. now exists "", x, y, a, b.
  - intros [(c & rest & ->)|(p & x & y & ra & rb & -> & -> & Hlt)].
    + apply str_lt_prefix.
    + now apply str_lt_differ.
Qed.

Section ranks.

Variable account_types : account_types_module.

Abbreviation registered t := (t ∈ account_types.(ACCOUNT_TYPES)).
Abbreviation rank t := (account_types.(TYPES_ORDER) !! t).

(** The taxonomy ranks every registered root type, and its order is total:
    two different root types have different ranks. *)
Hypothesis ranked : forall t, registered t -> is_Some (rank t).
Hypothesis rank_inj :
  forall t u r, registered t -> registered u ->
                rank t = Some r -> rank u = Some r -> t = u.

(** C7: for two accounts of registered types, both sort keys are defined;
    when the types differ the keys compare as the ranks of the types do, and
    when the types are equal the keys compare as the names do in the ordinal
    lexicographic order. *)
Theorem account_sortkey_order (a b : Account) :
  registered a.(type) -> registered b.(type) ->
  exists ra rb,
    rank a.(type) = Some ra /\ rank b.(type) = Some rb
    /\ account_sortkey account_types a = Ok (ra, a.(name))
    /\ account_sortkey account_types b = Ok (rb, b.(name))
    /\ (a.(type) <> b.(type) ->
        (tuple_lt (ra, a.(name)) (rb, b.(name)) = true <-> (ra < rb)%Z))
    /\ (a.(type) = b.(type) ->
        (tuple_lt (ra, a.(name)) (rb, b.(name)) = true
         <-> lex_before a.(name) b.(name))).
Proof.
  intros Ha Hb.
  destruct (ranked _ Ha) as [ra Hra], (ranked _ Hb) as [rb Hrb].
  exists ra, rb. unfold account_sortkey. rewrite Hra, Hrb.
  repeat (split; [reflexivity|]). unfold tuple_lt. cbn [fst snd]. split.
  - intros Hne. destruct (Z.eqb_spec ra rb) as [->|_]; cbn [negb].
    + destruct Hne. exact (rank_inj _ _ _ Ha Hb Hra Hrb).
    + apply Z.ltb_lt.
  - intros Heq. rewrite Heq, Hrb in Hra. injection Hra as ->.
    rewrite Z.eqb_refl. cbn [negb]. rewrite <- str_lt_lex_before.
    destruct (String.eqb_spec a.(name) b.(name)) as [->|_]; cbn [negb].
    + now rewrite str_lt_irrefl.
    + reflexivity.
Qed.

End ranks.

Lemma conventional_types_ranked (t : string) :
  t ∈ conventional_types.(ACCOUNT_TYPES) ->
  is_Some (conventional_types.(TYPES_ORDER) !! t).
Proof.
  cbn [ACCOUNT_TYPES conventional_types]. intros Ht.
  repeat (apply elem_of_cons in Ht as [->|Ht]; [now eexists|]).
  now apply elem_of_nil in Ht.
Qed.

Lemma conventional_types_rank_inj (t u : string) (r : Z) :
  t ∈ conventional_types.(ACCOUNT_TYPES) ->
  u ∈ conventional_types.(ACCOUNT_TYPES) ->
  conventional_types.(TYPES_ORDER) !! t = Some r ->
  conventional_types.(TYPES_ORDER) !! u = Some r -> t = u.
Proof.
  cbn [ACCOUNT_TYPES conventional_types]. intros Ht Hu.
  repeat (apply elem_of_cons in Ht as [->|Ht]);
    try (now apply elem_of_nil in Ht);
    repeat (apply elem_of_cons in Hu as [->|Hu]);
    try (now apply elem_of_nil in Hu);
    intros H1 H2; vm_compute in H1, H2; congruence.
Qed.

Lemma account_sortkey_order_witness :
  account_sortkey conventional_types (mkAccount "Assets:Cash" "Assets")
    = Ok (0%Z, "Assets:Cash")
  /\ account_sortkey conventional_types (mkAccount "Income:Salary" "Income")
     = Ok (3%Z, "Income:Salary")
  /\ tuple_lt (0%Z, "Assets:Cash") (3%Z, "Income:Salary") = true.
Proof.
  destruct (account_sortkey_order conventional_types
              conventional_types_ranked conventional_types_rank_inj
              (mkAccount "Assets:Cash" "Assets")
              (mkAccount "Income:Salary" "Income"))
    as (ra & rb & Hra & Hrb & Hka & Hkb & Hdiff & _).
  - vm_compute. repeat constructor.
  - vm_compute. repeat constructor.
  - vm_compute in Hra, Hrb. injection Hra as <-. injection Hrb as <-.
    split; [exact Hka|]. split; [exact Hkb|].
    apply Hdiff; [discriminate | reflexivity].
Defined.

(** ** Balance-sheet and income-statement accounts *)

Lemma str_eq_value_true (s : string) (v : pyvalue) :
  str_eq_value s v = true <-> v = VStr s.
Proof.
  destruct v; simpl; try (split; [discriminate | congruence]).
  rewrite String.eqb_eq. split; congruence.
Qed.

Lemma in_option_values_ok (x : string) (options : gmap string pyvalue)
    (keys : list string) :
  (forall k, k ∈ keys -> is_Some (options !! k)) ->
  exists b, in_option_values x options keys = Ok b
            /\ (b = true <-> exists k, k ∈ keys /\ options !! k = Some (VStr x)).
Proof.
  induction keys as [|k keys IH]; intros Hkeys; cbn [in_option_values].
  - exists false. split; [reflexivity|]. split; [discriminate|].
    intros (k & Hk & _). now apply elem_of_nil in Hk.
  - destruct (Hkeys k) as [v Hv]; [constructor|]. rewrite Hv.
    destruct (str_eq_value x v) eqn:E.
    + exists true. split; [reflexivity|]. split; [|reflexivity]. intros _.
      exists k. split; [constructor|]. apply str_eq_value_true in E. now subst v.
    + destruct IH as (b & -> & Hb).
      { intros k' Hk'. apply Hkeys. now constructor. }
      exists b. split; [reflexivity|]. rewrite Hb. split.
      * intros (k' & Hk' & Hl). exists k'. split; [now constructor | exact Hl].
      * intros (k' & Hk' & Hl). apply elem_of_cons in Hk' as [->|Hk'].
        -- rewrite Hv in Hl. injection Hl as ->.
           rewrite (proj2 (str_eq_value_true x (VStr x)) eq_refl) in E. discriminate.
        -- now exists k'.
Qed.

(** Case analysis on the membership of a key in a literal list of keys. *)
Ltac key_cases Hk :=
  repeat (apply elem_of_cons in Hk as [->|Hk]);
  [.. | now apply elem_of_nil in Hk].

(** C8: with options that have the five role keys, both predicates return
    a boolean; [is_balance_sheet_account] is true exactly when the type of
    the account is the value of [name_assets], [name_liabilities] or
    [name_equity], and [is_income_statement_account] exactly when it is the
    value of [name_income] or [name_expenses]. *)
Theorem balance_sheet_income_statement_iff (account : Account)
    (options : gmap string pyvalue) :
  (forall k, k ∈ role_keys -> is_Some (options !! k)) ->
  exists bs inc,
    is_balance_sheet_account account options = Ok bs
    /\ is_income_statement_account account options = Ok inc
    /\ (bs = true <->
        options !! "name_assets" = Some (VStr account.(type))
        \/ options !! "name_liabilities" = Some (VStr account.(type))
        \/ options !! "name_equity" = Some (VStr account.(type)))
    /\ (inc = true <->
        options !! "name_income" = Some (VStr account.(type))
        \/ options !! "name_expenses" = Some (VStr account.(type))).
Proof.
  intros Hroles. unfold is_balance_sheet_account, is_income_statement_account.
  destruct (in_option_values_ok account.(type) options
              ["name_assets"; "name_liabilities"; "name_equity"])
    as (bs & -> & Hbs).
  { intros k Hk. apply Hroles. unfold role_keys. key_cases Hk; repeat constructor. }
  destruct (in_option_values_ok account.(type) options
              ["name_income"; "name_expenses"])
    as (inc & -> & Hinc).
  { intros k Hk. apply Hroles. unfold role_keys. key_cases Hk; repeat constructor. }
  exists bs, inc. repeat (split; [reflexivity|]).
  rewrite Hbs, Hinc. split; split.
  - intros (k & Hk & Hl). key_cases Hk; auto.
  - intros [H|[H|H]]; eexists; (split; [|exact H]); repeat constructor.
  - intros (k & Hk & Hl). key_cases Hk; auto.
  - intros [H|H]; eexists; (split; [|exact H]); repeat constructor.
Qed.

(** C10: with options that give the five role keys pairwise distinct
    strings, no account is both a balance-sheet account and an
    income-statement account. *)
Theorem balance_sheet_income_statement_exclusive (account : Account)
    (options : gmap string pyvalue) (assets liabilities equity income expenses : string) :
  options !! "name_assets" = Some (VStr assets) ->
  options !! "name_liabilities" = Some (VStr liabilities) ->
  options !! "name_equity" = Some (VStr equity) ->
  options !! "name_income" = Some (VStr income) ->
  options !! "name_expenses" = Some (VStr expenses) ->
  NoDup [assets; liabilities; equity; income; expenses] ->
  ~ (is_balance_sheet_account account options = Ok true
     /\ is_income_statement_account account options = Ok true).
Proof.
  intros Ha Hl He Hi Hx Hdistinct [Hbs Hinc].
  unfold is_balance_sheet_account, is_income_statement_account in *.
  destruct (in_option_values_ok account.(type) options
              ["name_assets"; "name_liabilities"; "name_equity"])
    as (bs & Ebs & Hbs').
  { intros k Hk. key_cases Hk; eauto. }
  destruct (in_option_values_ok account.(type) options
              ["name_income"; "name_expenses"])
    as (inc & Einc & Hinc').
  { intros k Hk. key_cases Hk; eauto. }
  rewrite Ebs in Hbs. rewrite Einc in Hinc.
  injection Hbs as ->. injection Hinc as ->.
  destruct (proj1 Hbs' eq_refl) as (k1 & Hk1 & Hv1).
  destruct (proj1 Hinc' eq_refl) as (k2 & Hk2 & Hv2).
  rewrite !NoDup_cons, !not_elem_of_cons in Hdistinct.
  key_cases Hk1; key_cases Hk2; simplify_eq; intuition congruence.
Qed.

(** The options of a ledger with the default names of the root types. *)
Lemma default_options_roles :
  let options : gmap string pyvalue :=
    list_to_map [("name_assets", VStr "Assets");
                 ("name_liabilities", VStr "Liabilities");
                 ("name_equity", VStr "Equity");
                 ("name_income", VStr "Income");
                 ("name_expenses", VStr "Expenses")] in
  forall k, k ∈ role_keys -> is_Some (options !! k).
Proof.
  intros options k Hk. unfold role_keys in Hk.
  repeat (apply elem_of_cons in Hk as [->|Hk]; [now eexists|]).
  now apply elem_of_nil in Hk.
Qed.

Lemma balance_sheet_income_statement_iff_witness :
  let options : gmap string pyvalue :=
    list_to_map [("name_assets", VStr "Assets");
                 ("name_liabilities", VStr "Liabilities");
                 ("name_equity", VStr "Equity");
                 ("name_income", VStr "Income");
                 ("name_expenses", VStr "Expenses")] in
  is_balance_sheet_account (mkAccount "Equity:Opening" "Equity") options = Ok true
  /\ is_income_statement_account (mkAccount "Equity:Opening" "Equity") options
     = Ok false.
Proof.
  intros options.
  destruct (balance_sheet_income_statement_iff
              (mkAccount "Equity:Opening" "Equity") options
              default_options_roles)
    as (bs & inc & Hbs & Hinc & _ & _).
  vm_compute in Hbs, Hinc. injection Hbs as <-. injection Hinc as <-.
  split; reflexivity.
Defined.

Lemma balance_sheet_income_statement_exclusive_witness :
  let options : gmap string pyvalue :=
    list_to_map [("name_assets", VStr "Assets");
                 ("name_liabilities", VStr "Liabilities");
                 ("name_equity", VStr "Equity");
                 ("name_income", VStr "Income");
                 ("name_expenses", VStr "Expenses")] in
  ~ (is_balance_sheet_account (mkAccount "Income:Salary" "Income") options = Ok true
     /\ is_income_statement_account (mkAccount "Income:Salary" "Income") options
        = Ok true).
Proof.
  intros options.
  apply (balance_sheet_income_statement_exclusive
           (mkAccount "Income:Salary" "Income") options
           "Assets" "Liabilities" "Equity" "Income" "Expenses");
    try reflexivity.
  apply (bool_decide_unpack _). vm_compute. exact I.
Defined.

(** ** Conversion of importer configurations *)

Section accountify.

Variable account_types : account_types_module.

Abbreviation registered t := (t ∈ account_types.(ACCOUNT_TYPES)).

Abbreviation unregistered_name := (unregistered_name account_types).

Lemma accountify_value_cases (v : pyvalue) :
  (accountify_value account_types v = Ok (accountified v)
   /\ ~ unregistered_name v)
  \/ (accountify_value account_types v = Raise AssertionError
      /\ unregistered_name v).
Proof.
  destruct v as [| | |s| |]; try (left; split; [reflexivity|];
    intros (s' & [=] & _)).
  cbn [accountify_value accountified].
  destruct (is_account_name s) eqn:Hname.
  - rewrite account_from_name_eq.
    destruct (bool_decide_reflect (registered (first_segment s))) as [Hin|Hout].
    + left. split; [reflexivity|]. intros (s' & [= <-] & _ & Hout). tauto.
    + right. split; [reflexivity|]. now exists s.
  - left. split; [reflexivity|]. intros (s' & [= <-] & Hs' & _). congruence.
Qed.

Lemma accountify_dict_cases `{Countable K} (string_dict : gmap K pyvalue) :
  (accountify_dict account_types string_dict = Ok (accountified <$> string_dict)
   /\ forall k v, string_dict !! k = Some v -> ~ unregistered_name v)
  \/ (accountify_dict account_types string_dict = Raise AssertionError
      /\ exists k v, string_dict !! k = Some v /\ unregistered_name v).
Proof.
  unfold accountify_dict.
  apply (map_fold_weak_ind (fun r (m : gmap K pyvalue) =>
    (r = Ok (accountified <$> m)
     /\ forall k v, m !! k = Some v -> ~ unregistered_name v)
    \/ (r = Raise AssertionError
        /\ exists k v, m !! k = Some v /\ unregistered_name v))).
  - left. split; [now rewrite fmap_empty|]. intros k v Hk.
    now rewrite lookup_empty in Hk.
  - intros i x m r Hfresh [[-> Hgood]|[-> (k & v & Hk & Hbad)]].
    + cbn [mbind result_bind].
      destruct (accountify_value_cases x) as [[-> Hx]|[-> Hx]];
        cbn [mbind result_bind].
      * left. split; [now rewrite fmap_insert|]. intros k v Hk.
        apply lookup_insert_Some in Hk as [[-> ->]|[_ Hk]]; eauto.
      * right. split; [reflexivity|]. exists i, x.
        split; [apply lookup_insert_eq | exact Hx].
    + right. split; [reflexivity|]. exists k, v. split; [|exact Hbad].
      rewrite lookup_insert_ne; [exact Hk|]. intros ->. congruence.
Qed.

(** C4, as amended: when every string value accepted by [is_account_name]
    has a registered first colon-segment, [accountify_dict] returns a new
    dictionary with exactly the same keys, in which every string value
    accepted by [is_account_name] is replaced by its account and every other
    value is unchanged; when some string value accepted by [is_account_name]
    has an unregistered first colon-segment, it raises the assertion error
    for an invalid account type. *)
Theorem accountify_dict_registered `{Countable K} (string_dict : gmap K pyvalue) :
  ((forall k s, string_dict !! k = Some (VStr s) -> is_account_name s = true ->
                registered (first_segment s)) ->
   exists new_dict,
     accountify_dict account_types string_dict = Ok new_dict
     /\ dom new_dict = dom string_dict
     /\ (forall k v, string_dict !! k = Some v ->
           new_dict !! k = Some (accountified v))
     /\ (forall k s, string_dict !! k = Some (VStr s) -> is_account_name s = true ->
           exists account,
             account_from_name account_types s = Ok account
             /\ new_dict !! k = Some (VAccount account))
     /\ (forall k v, string_dict !! k = Some v ->
           (forall s, v = VStr s -> is_account_name s = false) ->
           new_dict !! k = Some v))
  /\ ((exists k s, string_dict !! k = Some (VStr s) /\ is_account_name s = true
                   /\ ~ registered (first_segment s)) ->
      accountify_dict account_types string_dict = Raise AssertionError).
Proof.
  split.
  - intros Hreg.
    destruct (accountify_dict_cases string_dict)
      as [[-> _]|[_ (k & v & Hk & s & -> & Hname & Hout)]].
    + exists (accountified <$> string_dict). split; [reflexivity|].
      split; [apply dom_fmap_L|].
      assert (Hval : forall k v, string_dict !! k = Some v ->
                (accountified <$> string_dict) !! k = Some (accountified v)).
      { intros k v Hk. now rewrite lookup_fmap, Hk. }
      split; [exact Hval|]. split.
      * intros k s Hk Hname. exists (mkAccount s (first_segment s)).
        rewrite account_from_name_eq, (Hval _ _ Hk).
        rewrite (bool_decide_eq_true_2 _ (Hreg _ _ Hk Hname)).
        cbn [accountified]. now rewrite Hname.
      * intros k v Hk Hv. rewrite (Hval _ _ Hk).
        destruct v as [| | |s| |]; try reflexivity.
        cbn [accountified]. now rewrite (Hv s eq_refl).
    + destruct Hout. eapply Hreg; eassumption.
  - intros (k & s & Hk & Hname & Hout).
    destruct (accountify_dict_cases string_dict) as [[_ Hgood]|[-> _]];
      [|reflexivity].
    destruct (Hgood _ _ Hk). now exists s.
Qed.

End accountify.

(** C4, as stated, fails: with the conventional root types the dictionary
    [{"a": "Foo:Bar"}] makes [accountify_dict] raise. *)
Lemma accountify_dict_raises :
  accountify_dict conventional_types
    ({["a" := VStr "Foo:Bar"]} : gmap string pyvalue)
  = Raise AssertionError.
Proof. reflexivity. Qed.

Lemma accountify_dict_registered_witness :
  let string_dict : gmap string pyvalue :=
    <["a" := VStr "Assets:Cash"]> {["b" := VInt 42]} in
  exists new_dict,
    accountify_dict conventional_types string_dict = Ok new_dict
    /\ dom new_dict = dom string_dict
    /\ new_dict !! "a" = Some (VAccount (mkAccount "Assets:Cash" "Assets"))
    /\ new_dict !! "b" = Some (VInt 42).
Proof.
  intros string_dict.
  destruct (accountify_dict_registered conventional_types string_dict)
    as [Hok _].
  destruct Hok as (new_dict & Hnew & Hdom & _ & Hname & Hother).
  - intros k s Hk _. subst string_dict.
    apply lookup_insert_Some in Hk as [[_ [= <-]]|[_ Hk]].
    + vm_compute. constructor.
    + apply lookup_singleton_Some in Hk as [_ [=]].
  - exists new_dict. split; [exact Hnew|]. split; [exact Hdom|]. split.
    + destruct (Hname "a" "Assets:Cash") as (account & Hacc & Hlook);
        [reflexivity | reflexivity |].
      vm_compute in Hacc. injection Hacc as <-. exact Hlook.
    + apply (Hother "b" (VInt 42)); [reflexivity | discriminate].
Defined.

(** ** Names, their parents and their root types *)

Lemma first_segment_colon_free (s : string) :
  colon_free s -> first_segment s = s.
Proof.
  unfold colon_free, chars. induction s as [|c s IH]; [reflexivity|].
  simpl. rewrite not_elem_of_cons. intros [Hc Hs].
  destruct (Ascii.eqb_spec c ":") as [->|_]; [congruence|].
  now rewrite (IH Hs).
Qed.

Lemma first_segment_app_colon (x r : string) :
  colon_free x -> first_segment (x +:+ ":" +:+ r) = x.
Proof.
  unfold colon_free, chars. induction x as [|c x IH]; [reflexivity|].
  simpl. rewrite not_elem_of_cons. intros [Hc Hx].
  destruct (Ascii.eqb_spec c ":") as [->|_]; [congruence|].
  now rewrite (IH Hx).
Qed.

Lemma first_segment_join (x : string) (l : list string) :
  colon_free x -> first_segment (join ":" (x :: l)) = x.
Proof.
  intros Hx. destruct l as [|y l].
  - now apply first_segment_colon_free.
  - rewrite join_cons. now apply first_segment_app_colon.
Qed.

Lemma split_two (s : string) :
  ":"%char ∈ chars s -> exists x y l, split ":" s = x :: y :: l.
Proof.
  unfold chars. induction s as [|c s IH]; simpl.
  - intros H. now apply elem_of_nil in H.
  - intros H. destruct (Ascii.eqb_spec c ":") as [->|Hc].
    + destruct (split ":" s) as [|y l] eqn:E; [now apply split_nonempty in E|].
      now exists "", y, l.
    + apply elem_of_cons in H as [H|H]; [congruence|].
      destruct (IH H) as (x & y & l & ->). now exists (String c x), y, l.
Qed.

Lemma join_snoc (segs : list string) (last : string) :
  segs <> [] -> join ":" (segs ++ [last]) = join ":" segs +:+ ":" +:+ last.
Proof.
  induction segs as [|x segs IH]; [congruence|]. intros _.
  destruct segs as [|y segs]; [reflexivity|].
  change ((x :: y :: segs) ++ [last]) with (x :: y :: (segs ++ [last])).
  rewrite !join_cons, str_app_assoc, str_app_assoc. do 2 f_equal.
  apply IH. discriminate.
Qed.

Lemma getitem_last {A} (l : list A) (x : A) : getitem (l ++ [x]) (-1) = Ok x.
Proof.
  unfold getitem. rewrite length_app. cbn [length].
  replace (length l + 1) with (S (length l)) by lia.
  now rewrite norm_index_last, list_lookup_middle.
Qed.

Lemma has_colon_nonempty (s : string) : ":"%char ∈ chars s -> s <> "".
Proof. intros H ->. now apply elem_of_nil in H. Qed.

(** The anatomy of a name that has a colon: its fields are a non-empty list
    of leading fields and a last one, and its parent is the join of the
    leading ones. *)
Lemma nested_name (account_name : string) :
  ":"%char ∈ chars account_name ->
  exists segs last,
    segs <> []
    /\ split ":" account_name = segs ++ [last]
    /\ Forall colon_free (segs ++ [last])
    /\ account_name_parent account_name = Ok (Some (join ":" segs))
    /\ account_name = join ":" segs +:+ ":" +:+ last
    /\ first_segment (join ":" segs) = first_segment account_name.
Proof.
  intros Hcolon.
  destruct (snoc_cases (split ":" account_name) (split_nonempty _ _))
    as (segs & last & Hsplit).
  assert (Hsegs : segs <> []).
  { intros ->. destruct (split_two _ Hcolon) as (x & y & l & E).
    rewrite E in Hsplit. discriminate. }
  assert (Hfree : Forall colon_free (segs ++ [last])).
  { rewrite <- Hsplit. apply split_colon_free. }
  exists segs, last. split; [exact Hsegs|]. split; [exact Hsplit|].
  split; [exact Hfree|]. split.
  - exact (account_name_parent_split _ _ _ (has_colon_nonempty _ Hcolon) Hsplit).
  - split.
    + rewrite <- (join_snoc _ _ Hsegs), <- Hsplit. now rewrite join_split.
    + destruct (split_head account_name) as (fields & Hhead).
      destruct segs as [|x segs]; [congruence|].
      rewrite Hhead in Hsplit. injection Hsplit as <- _.
      apply first_segment_join. now inversion Hfree.
Qed.

Lemma word_char_not_colon (c : ascii) : word_char c -> c <> ":"%char.
Proof.
  unfold word_char, between. intros H ->.
  destruct H as [H|[H|[H|H]]]; try discriminate H; vm_compute in H; lia.
Qed.

Lemma segment_colon_free (seg : string) : segment seg -> colon_free seg.
Proof.
  intros (c & rest & -> & Hc & _ & Hrest). unfold colon_free, chars in *. simpl.
  rewrite not_elem_of_cons. split.
  - intros E. apply (word_char_not_colon c); [now left | congruence].
  - intros Hin. rewrite Forall_forall in Hrest.
    now apply (word_char_not_colon _ (Hrest _ Hin)).
Qed.

Lemma has_colon_join (x y : string) (l : list string) :
  ":"%char ∈ chars (join ":" (x :: y :: l)).
Proof.
  rewrite join_cons, !chars_app. apply elem_of_app. right.
  apply elem_of_app. left. constructor.
Qed.

Lemma account_name_form_colon (s : string) :
  account_name_form s -> ":"%char ∈ chars s.
Proof.
  intros (segs & Hlen & _ & ->).
  destruct segs as [|x [|y l]]; simpl in Hlen; try lia. apply has_colon_join.
Qed.

Lemma is_account_name_colon (s : string) :
  is_account_name s = true -> ":"%char ∈ chars s.
Proof.
  intros H. apply is_account_name_accepts in H as [H|(n & H & ->)].
  - now apply account_name_form_colon.
  - rewrite chars_app. apply elem_of_app. left. now apply account_name_form_colon.
Qed.

Section hierarchy.

Variable account_types : account_types_module.

(** X1: a registered root type without colon is its own type: the account
    made from it has it as name and as type, and [is_account_name] rejects
    it, since an account name has at least two segments. *)
Theorem root_name_is_own_type (account_name : string) :
  is_account_name_root account_types account_name = true ->
  colon_free account_name ->
  account_name_type account_types account_name = Ok account_name
  /\ account_from_name account_types account_name
     = Ok (mkAccount account_name account_name)
  /\ is_account_name account_name = false.
Proof.
  unfold is_account_name_root. intros Hroot Hfree.
  rewrite account_name_type_eq, account_from_name_eq.
  rewrite (first_segment_colon_free _ Hfree), Hroot.
  repeat (split; [reflexivity|]).
  destruct (is_account_name account_name) eqn:E; [|reflexivity].
  destruct Hfree. now apply is_account_name_colon.
Qed.

(** X2: the parent of a name that has a colon has the same root type: both
    names are typed alike by [account_name_type], and when the name makes an
    account, so does its parent, with the same type. *)
Theorem parent_keeps_type (account_name : string) :
  ":"%char ∈ chars account_name ->
  exists parent,
    account_name_parent account_name = Ok (Some parent)
    /\ account_name_type account_types parent
       = account_name_type account_types account_name
    /\ (forall a, account_from_name account_types account_name = Ok a ->
          account_from_name account_types parent
          = Ok (mkAccount parent a.(type))).
Proof.
  intros Hcolon.
  destruct (nested_name _ Hcolon) as (segs & last & _ & _ & _ & Hparent & _ & Hfirst).
  exists (join ":" segs). split; [exact Hparent|].
  rewrite !account_name_type_eq, !account_from_name_eq, Hfirst.
  split; [reflexivity|]. intros a.
  destruct (bool_decide _); [|discriminate]. now intros [= <-].
Qed.

(** X11: an account sorts after its parent: when a name with a colon has a
    sort key, its parent has one too, and the parent's key is the smaller
    one. *)
Theorem parent_sorts_first (account_name : string) (key : Z * string) :
  ":"%char ∈ chars account_name ->
  account_name_sortkey account_types account_name = Ok key ->
  exists parent parent_key,
    account_name_parent account_name = Ok (Some parent)
    /\ account_name_sortkey account_types parent = Ok parent_key
    /\ tuple_lt parent_key key = true.
Proof.
  intros Hcolon Hkey.
  destruct (nested_name _ Hcolon)
    as (segs & last & _ & _ & _ & Hparent & Hname & Hfirst).
  unfold account_name_sortkey in Hkey. rewrite account_name_type_eq in Hkey.
  destruct (bool_decide _) eqn:Hreg; [|discriminate].
  cbn [mbind result_bind] in Hkey.
  destruct (_ !! first_segment account_name) as [r|] eqn:Hrank; [|discriminate].
  injection Hkey as <-.
  exists (join ":" segs), (r, join ":" segs).
  split; [exact Hparent|]. split.
  { unfold account_name_sortkey.
    rewrite account_name_type_eq, Hfirst, Hreg. cbn [mbind result_bind].
    now rewrite Hrank. }
  assert (Hlt : str_lt (join ":" segs) account_name = true).
  { rewrite Hname. apply (str_lt_prefix _ ":" last). }
  unfold tuple_lt. cbn [fst snd]. rewrite Z.eqb_refl. cbn [negb].
  destruct (String.eqb_spec (join ":" segs) account_name) as [E|_];
    cbn [negb]; [|exact Hlt].
  rewrite E, str_lt_irrefl in Hlt. discriminate.
Qed.

End hierarchy.

(** X3: a name that has a colon is its parent, a colon and its last field
    [split(':')[-1]]; the last field has no colon and the fields of the
    parent are the fields of the name without the last one. *)
Theorem parent_and_last_field (account_name : string) :
  ":"%char ∈ chars account_name ->
  exists parent last,
    account_name_parent account_name = Ok (Some parent)
    /\ getitem (split ":" account_name) (-1) = Ok last
    /\ account_name = parent +:+ ":" +:+ last
    /\ colon_free last
    /\ split ":" account_name = split ":" parent ++ [last]
    /\ length (split ":" account_name) = S (length (split ":" parent)).
Proof.
  intros Hcolon.
  destruct (nested_name _ Hcolon)
    as (segs & last & Hsegs & Hsplit & Hfree & Hparent & Hname & _).
  apply Forall_app in Hfree as [Hfree Hlast].
  exists (join ":" segs), last. split; [exact Hparent|].
  split; [rewrite Hsplit; apply getitem_last|].
  split; [exact Hname|]. split; [now inversion Hlast|].
  rewrite (split_join _ Hsegs Hfree).
  split; [exact Hsplit|]. rewrite Hsplit, length_app. simpl. lia.
Qed.

(** X4: the parent of a name made of [k >= 2] segments of the grammar is the
    join of its first [k - 1] segments, and [is_account_name] accepts this
    parent exactly when [k >= 3]. *)
Theorem parent_of_account_name (segs : list string) :
  2 <= length segs ->
  Forall segment segs ->
  exists init last,
    segs = init ++ [last]
    /\ account_name_parent (join ":" segs) = Ok (Some (join ":" init))
    /\ (is_account_name (join ":" init) = true <-> 2 <= length init).
Proof.
  intros Hlen Hall.
  assert (Hfree : Forall colon_free segs).
  { eapply Forall_impl; [exact Hall|]. exact segment_colon_free. }
  destruct (snoc_cases segs) as (init & last & ->).
  { intros ->. simpl in Hlen. lia. }
  rewrite length_app in Hlen. simpl in Hlen.
  exists init, last. split; [reflexivity|].
  apply Forall_app in Hall as [Hinit _]. split.
  - apply (account_name_parent_split _ _ last).
    + apply has_colon_nonempty.
      destruct init as [|x [|y l]]; simpl in Hlen; try lia;
        apply has_colon_join.
    + apply split_join; [|exact Hfree]. destruct init; discriminate.
  - split.
    + intros Hname%is_account_name_colon.
      destruct init as [|x [|y l]]; simpl in *; try lia.
      inversion Hinit as [|? ? Hx _]; subst.
      now destruct (segment_colon_free _ Hx).
    + intros Hinit2. apply is_account_name_accepts. left. now exists init.
Qed.

Lemma root_name_is_own_type_witness :
  is_account_name_root conventional_types "Assets" = true
  /\ account_from_name conventional_types "Assets"
     = Ok (mkAccount "Assets" "Assets")
  /\ is_account_name "Assets" = false.
Proof.
  split; [reflexivity|].
  destruct (root_name_is_own_type conventional_types "Assets") as (_ & H1 & H2).
  - reflexivity.
  - apply (bool_decide_unpack _). vm_compute. exact I.
  - split; [exact H1 | exact H2].
Defined.

Lemma parent_keeps_type_witness :
  exists parent,
    account_name_parent "Assets:US:Checking" = Ok (Some parent)
    /\ account_name_type conventional_types parent = Ok "Assets".
Proof.
  destruct (parent_keeps_type conventional_types "Assets:US:Checking")
    as (parent & Hparent & Htype & _).
  - apply (bool_decide_unpack _). vm_compute. exact I.
  - exists parent. split; [exact Hparent|]. rewrite Htype. reflexivity.
Defined.

Lemma parent_sorts_first_witness :
  exists parent parent_key,
    account_name_parent "Income:Salary:Bonus" = Ok (Some parent)
    /\ account_name_sortkey conventional_types parent = Ok parent_key
    /\ tuple_lt parent_key (3%Z, "Income:Salary:Bonus") = true.
Proof.
  apply (parent_sorts_first conventional_types "Income:Salary:Bonus").
  - apply (bool_decide_unpack _). vm_compute. exact I.
  - reflexivity.
Defined.

Lemma parent_and_last_field_witness :
  exists parent last,
    account_name_parent "Assets:US:Checking" = Ok (Some parent)
    /\ getitem (split ":" "Assets:US:Checking") (-1) = Ok last
    /\ "Assets:US:Checking" = parent +:+ ":" +:+ last.
Proof.
  destruct (parent_and_last_field "Assets:US:Checking")
    as (parent & last & H1 & H2 & H3 & _).
  - apply (bool_decide_unpack _). vm_compute. exact I.
  - now exists parent, last.
Defined.

(** A way to check on a literal that it is a segment of the grammar. *)
Lemma segment_intro (c : ascii) (rest : string) :
  in_set c [Range "A" "Z"] = true ->
  rest <> "" ->
  forallb (fun d => in_set d [Range "A" "Z"; Range "a" "z"; Range "0" "9";
                              Single "-"]) (chars rest) = true ->
  segment (String c rest).
Proof.
  intros Hc Hne Hall. exists c, rest. split; [reflexivity|].
  split; [now apply in_set_upper|]. split; [exact Hne|].
  apply Forall_forall. intros d Hd. apply in_set_word.
  rewrite forallb_forall in Hall. apply Hall. now apply list_elem_of_In.
Qed.

Lemma parent_of_account_name_witness :
  account_name_parent "Assets:US:Checking" = Ok (Some "Assets:US")
  /\ is_account_name "Assets:US" = true.
Proof.
  destruct (parent_of_account_name ["Assets"; "US"; "Checking"])
    as (init & last & Hsegs & Hparent & Hvalid).
  - simpl. lia.
  - repeat constructor; apply segment_intro; (reflexivity || discriminate).
  - assert (E : init = ["Assets"; "US"]).
    { change ["Assets"; "US"; "Checking"] with (["Assets"; "US"] ++ ["Checking"])
        in Hsegs.
      now apply app_inj_tail in Hsegs as [<- _]. }
    subst init. split; [exact Hparent|]. apply Hvalid. simpl. lia.
Defined.

(** ** The order of sort keys *)

Lemma nat_of_ascii_inj (x y : ascii) : nat_of_ascii x = nat_of_ascii y -> x = y.
Proof.
  intros H. rewrite <- (ascii_nat_embedding x), <- (ascii_nat_embedding y).
  now rewrite H.
Qed.

Lemma str_lt_asym (a b : string) : str_lt a b = true -> str_lt b a = false.
Proof.
  revert b. induction a as [|x a IH]; intros [|y b]; cbn [str_lt];
    try discriminate; try reflexivity.
  rewrite (Ascii.eqb_sym y x).
  destruct (Ascii.eqb_spec x y) as [->|_]; [apply IH|].
  intros H%Nat.ltb_lt. apply Nat.ltb_ge. lia.
Qed.

Lemma str_lt_total (a b : string) :
  a <> b -> str_lt a b = true \/ str_lt b a = true.
Proof.
  revert b. induction a as [|x a IH]; intros [|y b] Hne; cbn [str_lt];
    try congruence; auto.
  rewrite (Ascii.eqb_sym y x).
  destruct (Ascii.eqb_spec x y) as [->|Hxy].
  - apply IH. congruence.
  - assert (nat_of_ascii x <> nat_of_ascii y)
      by (intros E; now apply nat_of_ascii_inj in E).
    rewrite !Nat.ltb_lt. lia.
Qed.

Lemma str_lt_trans (a b c : string) :
  str_lt a b = true -> str_lt b c = true -> str_lt a c = true.
Proof.
  revert b c. induction a as [|x a IH]; intros [|y b] [|z c]; cbn [str_lt];
    try discriminate; try reflexivity.
  destruct (Ascii.eqb_spec x y) as [->|Hxy].
  - destruct (Ascii.eqb_spec y z) as [->|Hyz]; [apply IH | auto].
  - destruct (Ascii.eqb_spec y z) as [->|Hyz].
    + destruct (Ascii.eqb_spec x z) as [->|_]; [congruence | auto].
    + intros H1%Nat.ltb_lt H2%Nat.ltb_lt.
      destruct (Ascii.eqb_spec x z) as [->|_]; [lia | apply Nat.ltb_lt; lia].
Qed.

Lemma tuple_lt_spec (r1 r2 : Z) (n1 n2 : string) :
  tuple_lt (r1, n1) (r2, n2) = true <->
  (r1 < r2)%Z \/ (r1 = r2 /\ str_lt n1 n2 = true).
Proof.
  unfold tuple_lt. cbn [fst snd].
  destruct (Z.eqb_spec r1 r2) as [->|Hr]; cbn [negb].
  - destruct (String.eqb_spec n1 n2) as [->|_]; cbn [negb].
    + rewrite str_lt_irrefl. split; [discriminate|]. intros [H|[_ H]]; [lia | discriminate].
    + split; [auto|]. intros [H|[_ H]]; [lia | exact H].
  - rewrite Z.ltb_lt. split; [auto|]. intros [H|[H _]]; [exact H | congruence].
Qed.

Section key_order.

Variable account_types : account_types_module.

(** X9: the order of the sort keys is a strict total order on accounts: no
    key is below itself, the order is transitive and asymmetric, and the
    keys of two accounts with different names are never tied. *)
Theorem account_sortkey_strict_total (a b c : Account) (ka kb kc : Z * string) :
  account_sortkey account_types a = Ok ka ->
  account_sortkey account_types b = Ok kb ->
  account_sortkey account_types c = Ok kc ->
  tuple_lt ka ka = false
  /\ (tuple_lt ka kb = true -> tuple_lt kb ka = false)
  /\ (tuple_lt ka kb = true -> tuple_lt kb kc = true -> tuple_lt ka kc = true)
  /\ (a.(name) <> b.(name) -> tuple_lt ka kb = true \/ tuple_lt kb ka = true).
Proof.
  unfold account_sortkey.
  destruct (_ !! a.(type)) as [ra|]; [|discriminate].
  destruct (_ !! b.(type)) as [rb|]; [|discriminate].
  destruct (_ !! c.(type)) as [rc|]; [|discriminate].
  intros [= <-] [= <-] [= <-]. split; [|split; [|split]].
  - destruct (tuple_lt (ra, a.(name)) (ra, a.(name))) eqn:E; [|reflexivity].
    apply tuple_lt_spec in E as [E|[_ E]]; [lia|].
    rewrite str_lt_irrefl in E. discriminate.
  - intros H%tuple_lt_spec.
    destruct (tuple_lt (rb, b.(name)) (ra, a.(name))) eqn:E; [|reflexivity].
    apply tuple_lt_spec in E.
    destruct H as [H|[-> H]], E as [E|[E1 E]]; try lia.
    apply str_lt_asym in H. congruence.
  - rewrite !tuple_lt_spec. intros [H1|[-> H1]] [H2|[-> H2]]; try (left; lia).
    right. split; [reflexivity|]. eapply str_lt_trans; eassumption.
  - intros Hne. rewrite !tuple_lt_spec.
    destruct (Z.lt_trichotomy ra rb) as [H|[->|H]]; auto.
    destruct (str_lt_total _ _ Hne); auto.
Qed.

(** X10: [account_name_sortkey] checks the root type before it looks the
    rank up: the assertion error is raised exactly for an unregistered first
    colon-segment, whether it has a rank or not, the key error exactly for a
    registered one that has no rank, and a key is returned exactly for a
    registered one with a rank; the key then carries the name unchanged. *)
Theorem account_name_sortkey_outcomes (account_name : string) :
  (account_name_sortkey account_types account_name = Raise AssertionError
   <-> first_segment account_name ∉ account_types.(ACCOUNT_TYPES))
  /\ (account_name_sortkey account_types account_name = Raise KeyError
      <-> first_segment account_name ∈ account_types.(ACCOUNT_TYPES)
          /\ account_types.(TYPES_ORDER) !! first_segment account_name = None)
  /\ (forall key,
        account_name_sortkey account_types account_name = Ok key
        <-> first_segment account_name ∈ account_types.(ACCOUNT_TYPES)
            /\ account_types.(TYPES_ORDER) !! first_segment account_name
               = Some (fst key)
            /\ snd key = account_name).
Proof.
  unfold account_name_sortkey. rewrite account_name_type_eq.
  destruct (bool_decide_reflect
              (first_segment account_name ∈ account_types.(ACCOUNT_TYPES)))
    as [Hin|Hout]; cbn [mbind result_bind].
  - destruct (_ !! first_segment account_name) as [r|].
    + split; [split; [discriminate | contradiction]|].
      split; [split; [discriminate | intros [_ [=]]]|].
      intros [r' n']. cbn [fst snd]. split.
      * intros [= <- <-]. auto.
      * intros (_ & [= <-] & <-). reflexivity.
    + split; [split; [discriminate | contradiction]|].
      split; [split; auto|].
      intros key. split; [discriminate | intros (_ & [=] & _)].
  - split; [split; auto|].
    split; [split; [discriminate | intros [Hin _]; contradiction]|].
    intros key. split; [discriminate | intros (Hin & _); contradiction].
Qed.

End key_order.

Lemma account_sortkey_strict_total_witness :
  tuple_lt (0%Z, "Assets:Cash") (0%Z, "Assets:Cash") = false
  /\ (tuple_lt (0%Z, "Assets:Cash") (0%Z, "Assets:Checking") = true
      \/ tuple_lt (0%Z, "Assets:Checking") (0%Z, "Assets:Cash") = true).
Proof.
  destruct (account_sortkey_strict_total conventional_types
              (mkAccount "Assets:Cash" "Assets")
              (mkAccount "Assets:Checking" "Assets")
              (mkAccount "Income:Salary" "Income")
              (0%Z, "Assets:Cash") (0%Z, "Assets:Checking")
              (3%Z, "Income:Salary") eq_refl eq_refl eq_refl)
    as (Hirr & _ & _ & Htotal).
  split; [exact Hirr|]. apply Htotal. discriminate.
Defined.

(** ** Lookups in the options *)

Lemma in_option_values_raise (x : string) (options : gmap string pyvalue)
    (keys : list string) (e : exn) :
  in_option_values x options keys = Raise e ->
  e = KeyError /\ exists k, k ∈ keys /\ options !! k = None.
Proof.
  induction keys as [|k keys IH]; cbn [in_option_values]; [discriminate|].
  destruct (options !! k) as [v|] eqn:Hk.
  - destruct (str_eq_value x v); [discriminate|]. intros H.
    destruct (IH H) as (-> & k' & Hk' & Hnone).
    split; [reflexivity|]. exists k'. split; [now constructor | exact Hnone].
  - intros [= <-]. split; [reflexivity|]. exists k. split; [constructor | exact Hk].
Qed.

(** X7: the options are looked up one key at a time and only as far as
    needed: when the value of the first role key is the type of the account
    the answer is true whatever the other keys are, even missing, and when
    the first role key is missing the predicate raises [KeyError]. *)
Theorem option_lookup_is_lazy (account : Account)
    (options : gmap string pyvalue) :
  (options !! "name_assets" = Some (VStr account.(type)) ->
   is_balance_sheet_account account options = Ok true)
  /\ (options !! "name_income" = Some (VStr account.(type)) ->
      is_income_statement_account account options = Ok true)
  /\ (options !! "name_assets" = None ->
      is_balance_sheet_account account options = Raise KeyError)
  /\ (options !! "name_income" = None ->
      is_income_statement_account account options = Raise KeyError).
Proof.
  unfold is_balance_sheet_account, is_income_statement_account.
  cbn [in_option_values].
  repeat split; intros ->; cbn [str_eq_value];
    try rewrite String.eqb_refl; reflexivity.
Qed.

(** X8: the only exception of the two predicates is [KeyError], and it is
    raised only when one of the role keys that the predicate reads is
    missing from the options. *)
Theorem classification_raises_only_key_error (account : Account)
    (options : gmap string pyvalue) (e : exn) :
  (is_balance_sheet_account account options = Raise e ->
   e = KeyError
   /\ (options !! "name_assets" = None
       \/ options !! "name_liabilities" = None
       \/ options !! "name_equity" = None))
  /\ (is_income_statement_account account options = Raise e ->
      e = KeyError
      /\ (options !! "name_income" = None
          \/ options !! "name_expenses" = None)).
Proof.
  unfold is_balance_sheet_account, is_income_statement_account.
  split; intros H; apply in_option_values_raise in H as (-> & k & Hk & Hnone);
    (split; [reflexivity|]); key_cases Hk; auto.
Qed.

Lemma option_lookup_is_lazy_witness :
  let options : gmap string pyvalue := {["name_assets" := VStr "Assets"]} in
  is_balance_sheet_account (mkAccount "Assets:Cash" "Assets") options = Ok true
  /\ is_income_statement_account (mkAccount "Assets:Cash" "Assets") options
     = Raise KeyError.
Proof.
  intros options.
  destruct (option_lookup_is_lazy (mkAccount "Assets:Cash" "Assets") options)
    as (Hbs & _ & _ & Hinc).
  split; [apply Hbs | apply Hinc]; reflexivity.
Defined.

Lemma classification_raises_only_key_error_witness :
  let options : gmap string pyvalue :=
    <["name_assets" := VStr "Assets"]> {["name_liabilities" := VInt 0]} in
  options !! "name_assets" = None
  \/ options !! "name_liabilities" = None
  \/ options !! "name_equity" = None.
Proof.
  intros options.
  destruct (classification_raises_only_key_error
              (mkAccount "Equity:Opening" "Equity") options KeyError)
    as [Hbs _].
  destruct Hbs as [_ H]; [reflexivity | exact H].
Defined.

(** ** More on the conversion of importer configurations *)

Lemma accountified_idempotent (v : pyvalue) :
  accountified (accountified v) = accountified v.
Proof.
  destruct v as [| | |s| |]; try reflexivity. cbn [accountified].
  destruct (is_account_name s) eqn:E; [reflexivity|].
  cbn [accountified]. now rewrite E.
Qed.

Section accountify_more.

Variable account_types : account_types_module.

Lemma accountified_registered (v : pyvalue) :
  ~ unregistered_name account_types (accountified v).
Proof.
  intros (s & Hv & Hname & _). destruct v as [| | |s'| |]; try discriminate Hv.
  cbn [accountified] in Hv. destruct (is_account_name s') eqn:E; [discriminate|].
  injection Hv as <-. congruence.
Qed.

(** X5: [accountify_dict] is idempotent: converting a dictionary it has
    returned returns the same dictionary. *)
Theorem accountify_dict_idempotent `{Countable K}
    (string_dict new_dict : gmap K pyvalue) :
  accountify_dict account_types string_dict = Ok new_dict ->
  accountify_dict account_types new_dict = Ok new_dict.
Proof.
  intros Hnew.
  destruct (accountify_dict_cases account_types string_dict)
    as [[E _]|[E _]]; rewrite E in Hnew; [|discriminate].
  injection Hnew as <-.
  destruct (accountify_dict_cases account_types (accountified <$> string_dict))
    as [[-> _]|[_ (k & v & Hk & Hbad)]].
  - f_equal. rewrite <- map_fmap_compose. apply map_fmap_ext.
    intros k v _. apply accountified_idempotent.
  - rewrite lookup_fmap in Hk.
    destruct (string_dict !! k) as [v'|]; [|discriminate].
    injection Hk as <-. now apply accountified_registered in Hbad.
Qed.

(** X6: a dictionary none of whose string values is accepted by
    [is_account_name] comes back unchanged, whatever the registered root
    types are; in particular the empty dictionary does. *)
Theorem accountify_dict_unchanged `{Countable K} (string_dict : gmap K pyvalue) :
  (forall k s, string_dict !! k = Some (VStr s) -> is_account_name s = false) ->
  accountify_dict account_types string_dict = Ok string_dict.
Proof.
  intros Hplain.
  destruct (accountify_dict_cases account_types string_dict)
    as [[-> _]|[_ (k & v & Hk & s & -> & Hname & _)]].
  - f_equal. rewrite <- (map_fmap_id string_dict) at 2. apply map_fmap_ext.
    intros k v Hk. destruct v as [| | |s| |]; try reflexivity.
    cbn [accountified]. now rewrite (Hplain _ _ Hk).
  - rewrite (Hplain _ _ Hk) in Hname. discriminate.
Qed.

(** X12: the conversion works entry by entry: when a dictionary is converted
    and a value is converted, the dictionary with that value stored under a
    key (new or already present) is converted to the converted dictionary
    with the converted value stored under that key. *)
Theorem accountify_dict_insert `{Countable K} (string_dict new_dict : gmap K pyvalue)
    (key : K) (value new_value : pyvalue) :
  accountify_dict account_types string_dict = Ok new_dict ->
  accountify_value account_types value = Ok new_value ->
  accountify_dict account_types (<[key := value]> string_dict)
  = Ok (<[key := new_value]> new_dict).
Proof.
  intros Hnew Hvalue.
  destruct (accountify_dict_cases account_types string_dict)
    as [[E Hgood]|[E _]]; rewrite E in Hnew; [|discriminate].
  injection Hnew as <-.
  destruct (accountify_value_cases account_types value)
    as [[E' Hvgood]|[E' _]]; rewrite E' in Hvalue; [|discriminate].
  injection Hvalue as <-.
  destruct (accountify_dict_cases account_types (<[key := value]> string_dict))
    as [[-> _]|[_ (k & v & Hk & Hbad)]].
  - now rewrite fmap_insert.
  - apply lookup_insert_Some in Hk as [[_ <-]|[_ Hk]]; [contradiction|].
    now destruct (Hgood _ _ Hk).
Qed.

End accountify_more.

Lemma accountify_dict_idempotent_witness :
  let new_dict : gmap string pyvalue :=
    <["a" := VAccount (mkAccount "Assets:Cash" "Assets")]> {["b" := VInt 42]} in
  accountify_dict conventional_types new_dict = Ok new_dict.
Proof.
  intros new_dict.
  apply (accountify_dict_idempotent conventional_types
           (<["a" := VStr "Assets:Cash"]> {["b" := VInt 42]})).
  reflexivity.
Defined.

Lemma accountify_dict_unchanged_witness :
  let string_dict : gmap string pyvalue :=
    <["a" := VStr "cash"]> {["b" := VInt 42]} in
  accountify_dict conventional_types string_dict = Ok string_dict.
Proof.
  intros string_dict.
  apply (accountify_dict_unchanged conventional_types string_dict).
  intros k s Hk. subst string_dict.
  apply lookup_insert_Some in Hk as [[_ [= <-]]|[_ Hk]]; [reflexivity|].
  apply lookup_singleton_Some in Hk as [_ [=]].
Defined.

Lemma accountify_dict_insert_witness :
  accountify_dict conventional_types
    (<["a" := VStr "Assets:Cash"]> ({["b" := VInt 42]} : gmap string pyvalue))
  = Ok (<["a" := VAccount (mkAccount "Assets:Cash" "Assets")]>
          {["b" := VInt 42]}).
Proof.
  apply (accountify_dict_insert conventional_types
           {["b" := VInt 42]} {["b" := VInt 42]} "a");
    reflexivity.
Defined.

(** ** The root type of an account name *)

(** X13: the first colon-segment of a string accepted by [is_account_name]
    is a segment of the grammar, an uppercase letter followed by letters,
    digits or hyphens, and is shorter than the string; so the type of every
    account made from an accepted name is such a segment. *)
Theorem account_name_root_is_segment (account_types : account_types_module)
    (account_name : string) :
  is_account_name account_name = true ->
  segment (first_segment account_name)
  /\ first_segment account_name <> account_name
  /\ (forall a, account_from_name account_types account_name = Ok a ->
        segment a.(type)).
Proof.
  intros Hname.
  assert (Hseg : segment (first_segment account_name)).
  { apply is_account_name_accepts in Hname
      as [(segs & Hlen & Hall & ->)|(n & (segs & Hlen & Hall & ->) & ->)];
      destruct segs as [|x [|y l]]; simpl in Hlen; try lia;
      inversion Hall as [|? ? Hx _]; subst;
      rewrite join_cons, ?str_app_assoc;
      now rewrite (first_segment_app_colon _ _ (segment_colon_free _ Hx)). }
  split; [exact Hseg|]. split.
  - intros E. apply segment_colon_free in Hseg. rewrite E in Hseg.
    destruct Hseg. now apply is_account_name_colon.
  - intros a. rewrite account_from_name_eq.
    destruct (bool_decide _); [|discriminate]. now intros [= <-].
Qed.

Lemma account_name_root_is_segment_witness :
  segment (first_segment "Assets:US:Checking")
  /\ first_segment "Assets:US:Checking" <> "Assets:US:Checking".
Proof.
  destruct (account_name_root_is_segment conventional_types
              "Assets:US:Checking" eq_refl) as (H1 & H2 & _).
  split; [exact H1 | exact H2].
Defined.
